(** * Codex chat plugin: the process-streaming session and the prompt budget

    A shallow embedding of
      - [CodexService.buildArgs] and [CodexService.sendMessage]
        (the stdout, stderr and close listeners of the spawned process),
      - [VaultContext.formatNoteContext],
      - [CodexChatView.buildConversationMemory] and the budget split at the
        head of [CodexChatView.handleSend],
      - [CodexService.query], [VaultContext.buildContext],
        [buildAtFileContext], [getFileSuggestions] and [findFile],
      - [SessionManager],
      - the handlers of a request in [CodexChatView]: [handleSend],
        [appendStreamText], [finalizeResponse], [handleStreamError],
        [handleCancel], [switchSession] and [handleSlashCommand],
      - [detectShell], [getShellPath] and [resolveCodexBinary],
      - [CodexAuth.checkAuthViaCli],
    together with the parts of the JavaScript runtime these functions call:
    strings as sequences of UTF-16 code units, [String.prototype.trim],
    [split], [slice], [TextDecoder.decode] for UTF-8, [JSON.parse] and
    binary64 multiplication with [Math.floor]. *)

From Stdlib Require Import ZArith NArith List String Ascii Bool Lia Sorted.
From Stdlib.Strings Require Import Byte.
From Stdlib Require Import DecimalString DecimalZ.
From Stdlib Require Import PrimFloat FloatOps SpecFloat.
Import ListNotations.

#[local] Set Warnings "-register-all,-inexact-float".
Local Open Scope Z_scope.

(* ================================================================== *)
(** ** The runtime: strings, decoding, JSON, numbers                   *)
(* ================================================================== *)

Module JS.

(** A JavaScript string is a sequence of UTF-16 code units. *)
Definition jsstring : Type := list N.

(** A string literal of the source, from its ASCII spelling. *)
Definition js (s : string) : jsstring :=
  map N_of_ascii (list_ascii_of_string s).

(** The same, with every apostrophe standing for a double quote, so that
    JSON text can be spelled out. *)
Definition jsq (s : string) : jsstring :=
  map (fun c => if N.eqb c 39 then 34%N else c) (js s).

Definition jsstring_eqb (a b : jsstring) : bool :=
  if list_eq_dec N.eq_dec a b then true else false.

(** [s.length] *)
Definition str_length (s : jsstring) : Z := Z.of_nat (List.length s).

(** Truthiness of a string: [if (s)] holds unless [s] is empty. *)
Definition truthy (s : jsstring) : bool :=
  match s with [] => false | _ :: _ => true end.

(** [s.slice(0, n)] for an integral [n]: a negative end counts from the
    end of the string. *)
Definition slice0 (s : jsstring) (n : Z) : jsstring :=
  if n <? 0 then firstn (Z.to_nat (Z.max (str_length s + n) 0)) s
  else firstn (Z.to_nat n) s.

(** [a.slice(start)] on an array, for an integral [start]: a negative
    start counts from the end, and [-0] is [0]. *)
Definition array_slice_from {A : Type} (a : list A) (start : Z) : list A :=
  if start <? 0
  then skipn (Z.to_nat (Z.max (Z.of_nat (List.length a) + start) 0)) a
  else skipn (Z.to_nat start) a.

(** ECMAScript WhiteSpace and LineTerminator code units, the ones
    [trim] strips. *)
Definition is_white_space (c : N) : bool :=
  match c with
  | 9 | 10 | 11 | 12 | 13 | 32 | 160 | 5760
  | 8232 | 8233 | 8239 | 8287 | 12288 | 65279 => true
  | _ => (8192 <=? c) && (c <=? 8202)
  end%N.

Fixpoint trimStart (s : jsstring) : jsstring :=
  match s with
  | [] => []
  | c :: r => if is_white_space c then trimStart r else s
  end.

Definition trimEnd (s : jsstring) : jsstring := rev (trimStart (rev s)).

(** [s.trim()] *)
Definition trim (s : jsstring) : jsstring := trimEnd (trimStart s).

(** [s.split(sep)] for a separator of one code unit; the result always
    has at least one element. *)
Fixpoint split (sep : N) (s : jsstring) : list jsstring :=
  match s with
  | [] => [[]]
  | c :: r =>
      if N.eqb c sep then [] :: split sep r
      else match split sep r with
           | l :: ls => (c :: l) :: ls
           | [] => [[c]]
           end
  end.

Definition LF : N := 10.

(** The decimal spelling of an integer, as a template literal prints a
    number that is an integer below 10^21 in magnitude; exit codes are
    such. *)
Definition ToString (z : Z) : jsstring :=
  js (NilZero.string_of_int (Z.to_int z)).

(* ------------------------------------------------------------------ *)
(** *** [new TextDecoder().decode(data)]: the UTF-8 decoder of the
        Encoding standard, in replacement mode and not streaming        *)

Record utf8_state : Type := {
  code_point : N;
  bytes_needed : N;
  bytes_seen : N;
  lower_boundary : N;
  upper_boundary : N
}.

Definition utf8_init : utf8_state :=
  {| code_point := 0; bytes_needed := 0; bytes_seen := 0;
     lower_boundary := 128; upper_boundary := 191 |}.

Definition REPLACEMENT : N := 65533.

Definition between (lo hi b : N) : bool := ((lo <=? b) && (b <=? hi))%N.

(** A byte met while no sequence is open. *)
Definition utf8_lead (b : N) : utf8_state * list N :=
  if (b <=? 127)%N then (utf8_init, [b])
  else if between 194 223 b then
    ({| code_point := N.land b 31; bytes_needed := 1; bytes_seen := 0;
        lower_boundary := 128; upper_boundary := 191 |}, [])
  else if between 224 239 b then
    ({| code_point := N.land b 15; bytes_needed := 2; bytes_seen := 0;
        lower_boundary := if N.eqb b 224 then 160 else 128;
        upper_boundary := if N.eqb b 237 then 159 else 191 |}, [])
  else if between 240 244 b then
    ({| code_point := N.land b 7; bytes_needed := 3; bytes_seen := 0;
        lower_boundary := if N.eqb b 240 then 144 else 128;
        upper_boundary := if N.eqb b 244 then 143 else 191 |}, [])
  else (utf8_init, [REPLACEMENT]).

(** One byte through the decoder: the next state and the code points
    emitted.  A byte that cannot continue the open sequence closes it
    with U+FFFD and is then read again as a lead byte. *)
Definition utf8_handler (st : utf8_state) (b : N) : utf8_state * list N :=
  if N.eqb (bytes_needed st) 0 then utf8_lead b
  else if negb (between (lower_boundary st) (upper_boundary st) b) then
    let '(st', out) := utf8_lead b in (st', REPLACEMENT :: out)
  else
    let cp := N.lor (N.shiftl (code_point st) 6) (N.land b 63) in
    let seen := (bytes_seen st + 1)%N in
    if N.eqb seen (bytes_needed st) then (utf8_init, [cp])
    else ({| code_point := cp; bytes_needed := bytes_needed st;
             bytes_seen := seen;
             lower_boundary := 128; upper_boundary := 191 |}, []).

Fixpoint utf8_run (st : utf8_state) (bs : list N) : list N :=
  match bs with
  | [] => if N.eqb (bytes_needed st) 0 then [] else [REPLACEMENT]
  | b :: r => let '(st', out) := utf8_handler st b in out ++ utf8_run st' r
  end.

(** A code point as UTF-16 code units. *)
Definition utf16_units (cp : N) : list N :=
  if (cp <=? 65535)%N then [cp]
  else let c := (cp - 65536)%N in
       [(55296 + N.shiftr c 10)%N; (56320 + N.land c 1023)%N].

(** A leading byte order mark is dropped, once per call. *)
Definition strip_bom (cps : list N) : list N :=
  match cps with
  | 65279%N :: r => r
  | _ => cps
  end.

(** A byte that is an ASCII character by itself. *)
Definition is_ascii (b : byte) : Prop := (Byte.to_N b <= 127)%N.

Definition TextDecoder_decode (data : list byte) : jsstring :=
  flat_map utf16_units (strip_bom (utf8_run utf8_init (map Byte.to_N data))).

(* ------------------------------------------------------------------ *)
(** *** [JSON.parse]                                                    *)

(** A parsed JSON value.  A number keeps its literal: the code under
    study passes numbers on and never computes with them.  An object
    keeps its members in source order; [get] reads the last one of a
    name, as the parser's repeated assignment leaves it. *)
Inductive json : Type :=
  | JNull
  | JBool (b : bool)
  | JNumber (literal : jsstring)
  | JString (s : jsstring)
  | JArray (items : list json)
  | JObject (members : list (jsstring * json)).

Inductive token : Type :=
  | TLBrace | TRBrace | TLBracket | TRBracket | TColon | TComma
  | TString (s : jsstring)
  | TNumber (literal : jsstring)
  | TTrue | TFalse | TNull.

(** Where the scanner stands inside a number literal. *)
Inductive num_state : Type :=
  | NMinus | NZero | NInt | NDot | NFrac | NExp | NExpSign | NExpDigits.

Definition num_accepting (ns : num_state) : bool :=
  match ns with
  | NZero | NInt | NFrac | NExpDigits => true
  | NMinus | NDot | NExp | NExpSign => false
  end.

Definition is_digit (c : N) : bool := between 48 57 c.

Definition num_next (ns : num_state) (c : N) : option num_state :=
  let dot := N.eqb c 46 in
  let e := N.eqb c 101 || N.eqb c 69 in
  let sign := N.eqb c 43 || N.eqb c 45 in
  match ns with
  | NMinus => if N.eqb c 48 then Some NZero
              else if is_digit c then Some NInt else None
  | NZero => if dot then Some NDot else if e then Some NExp else None
  | NInt => if is_digit c then Some NInt
            else if dot then Some NDot else if e then Some NExp else None
  | NDot => if is_digit c then Some NFrac else None
  | NFrac => if is_digit c then Some NFrac
             else if e then Some NExp else None
  | NExp => if is_digit c then Some NExpDigits
            else if sign then Some NExpSign else None
  | NExpSign => if is_digit c then Some NExpDigits else None
  | NExpDigits => if is_digit c then Some NExpDigits else None
  end.

Definition hex_value (c : N) : option N :=
  if between 48 57 c then Some (c - 48)%N
  else if between 97 102 c then Some (c - 87)%N
  else if between 65 70 c then Some (c - 55)%N
  else None.

(** The scanner's mode; strings and literals are gathered in reverse. *)
Inductive lex_mode : Type :=
  | LTop
  | LString (acc : jsstring)
  | LEscape (acc : jsstring)
  | LUnicode (acc : jsstring) (todo : nat) (value : N)
  | LNumber (ns : num_state) (acc : jsstring)
  | LWord (rest : jsstring) (t : token).

(** A code unit read between tokens; tokens are gathered in reverse. *)
Definition lex_top (toks : list token) (c : N)
  : option (lex_mode * list token) :=
  match c with
  | 32 | 9 | 10 | 13 => Some (LTop, toks)
  | 123 => Some (LTop, TLBrace :: toks)
  | 125 => Some (LTop, TRBrace :: toks)
  | 91 => Some (LTop, TLBracket :: toks)
  | 93 => Some (LTop, TRBracket :: toks)
  | 58 => Some (LTop, TColon :: toks)
  | 44 => Some (LTop, TComma :: toks)
  | 34 => Some (LString [], toks)
  | 45 => Some (LNumber NMinus [c], toks)
  | 48 => Some (LNumber NZero [c], toks)
  | 116 => Some (LWord (js "rue") TTrue, toks)
  | 102 => Some (LWord (js "alse") TFalse, toks)
  | 110 => Some (LWord (js "ull") TNull, toks)
  | _ => if is_digit c then Some (LNumber NInt [c], toks) else None
  end%N.

Definition lex_step (st : lex_mode * list token) (c : N)
  : option (lex_mode * list token) :=
  let '(mode, toks) := st in
  match mode with
  | LTop => lex_top toks c
  | LString acc =>
      if N.eqb c 34 then Some (LTop, TString (rev acc) :: toks)
      else if N.eqb c 92 then Some (LEscape acc, toks)
      else if (c <? 32)%N then None
      else Some (LString (c :: acc), toks)
  | LEscape acc =>
      match c with
      | 34 | 92 | 47 => Some (LString (c :: acc), toks)
      | 98 => Some (LString (8 :: acc), toks)
      | 102 => Some (LString (12 :: acc), toks)
      | 110 => Some (LString (10 :: acc), toks)
      | 114 => Some (LString (13 :: acc), toks)
      | 116 => Some (LString (9 :: acc), toks)
      | 117 => Some (LUnicode acc 4 0, toks)
      | _ => None
      end%N
  | LUnicode acc todo value =>
      match hex_value c with
      | None => None
      | Some h =>
          let v := (value * 16 + h)%N in
          match todo with
          | S (S k) => Some (LUnicode acc (S k) v, toks)
          | _ => Some (LString (v :: acc), toks)
          end
      end
  | LNumber ns acc =>
      match num_next ns c with
      | Some ns' => Some (LNumber ns' (c :: acc), toks)
      | None =>
          if num_accepting ns then lex_top (TNumber (rev acc) :: toks) c
          else None
      end
  | LWord rest t =>
      match rest with
      | x :: rest' =>
          if N.eqb c x
          then match rest' with
               | [] => Some (LTop, t :: toks)
               | _ => Some (LWord rest' t, toks)
               end
          else None
      | [] => None
      end
  end.

Fixpoint lex_run (st : lex_mode * list token) (s : jsstring)
  : option (lex_mode * list token) :=
  match s with
  | [] => Some st
  | c :: r => match lex_step st c with
              | Some st' => lex_run st' r
              | None => None
              end
  end.

Definition tokens (s : jsstring) : option (list token) :=
  match lex_run (LTop, []) s with
  | Some (LTop, toks) => Some (rev toks)
  | Some (LNumber ns acc, toks) =>
      if num_accepting ns then Some (rev (TNumber (rev acc) :: toks))
      else None
  | _ => None
  end.

(** An open array or object; an object frame holds the member name that
    waits for its value. *)
Inductive frame : Type :=
  | FArray (items : list json)
  | FObject (members : list (jsstring * json)) (key : option jsstring).

(** What the parser may read next. *)
Inductive expect : Type :=
  | EValue
  | EFirst
  | EKey (first : bool)
  | EColon
  | ENext
  | EDone (v : json).

Definition parse_state : Type := (list frame * expect)%type.

(** A value is complete: it is the result, or joins the innermost open
    array or object. *)
Definition complete (v : json) (stack : list frame) : option parse_state :=
  match stack with
  | [] => Some ([], EDone v)
  | FArray items :: st => Some (FArray (v :: items) :: st, ENext)
  | FObject members (Some k) :: st =>
      Some (FObject ((k, v) :: members) None :: st, ENext)
  | FObject _ None :: _ => None
  end.

Definition parse_value (t : token) (stack : list frame)
  : option parse_state :=
  match t with
  | TNull => complete JNull stack
  | TTrue => complete (JBool true) stack
  | TFalse => complete (JBool false) stack
  | TNumber l => complete (JNumber l) stack
  | TString s => complete (JString s) stack
  | TLBracket => Some (FArray [] :: stack, EFirst)
  | TLBrace => Some (FObject [] None :: stack, EKey true)
  | TRBrace | TRBracket | TColon | TComma => None
  end.

Definition parse_step (st : parse_state) (t : token) : option parse_state :=
  let '(stack, e) := st in
  match e with
  | EValue => parse_value t stack
  | EFirst =>
      match t, stack with
      | TRBracket, FArray _ :: st' => complete (JArray []) st'
      | _, _ => parse_value t stack
      end
  | EKey first =>
      match t, stack with
      | TString k, FObject members None :: st' =>
          Some (FObject members (Some k) :: st', EColon)
      | TRBrace, FObject _ None :: st' =>
          if first then complete (JObject []) st' else None
      | _, _ => None
      end
  | EColon =>
      match t with
      | TColon => Some (stack, EValue)
      | _ => None
      end
  | ENext =>
      match t, stack with
      | TComma, FArray _ :: _ => Some (stack, EValue)
      | TRBracket, FArray items :: st' => complete (JArray (rev items)) st'
      | TComma, FObject _ None :: _ => Some (stack, EKey false)
      | TRBrace, FObject members None :: st' =>
          complete (JObject (rev members)) st'
      | _, _ => None
      end
  | EDone _ => None
  end.

Fixpoint parse_run (st : parse_state) (ts : list token)
  : option parse_state :=
  match ts with
  | [] => Some st
  | t :: r => match parse_step st t with
              | Some st' => parse_run st' r
              | None => None
              end
  end.

(** [JSON.parse(text)]: [None] stands for the SyntaxError it throws. *)
Definition JSON_parse (text : jsstring) : option json :=
  match tokens text with
  | None => None
  | Some ts =>
      match parse_run ([], EValue) ts with
      | Some ([], EDone v) => Some v
      | _ => None
      end
  end.

(** [o.name] where [o] is an object: the last member of that name, or
    [None] for undefined. *)
Fixpoint last_member (name : jsstring) (members : list (jsstring * json))
  : option json :=
  match members with
  | [] => None
  | (k, v) :: r =>
      match last_member name r with
      | Some v' => Some v'
      | None => if jsstring_eqb k name then Some v else None
      end
  end.

(** Property reads at the types the interfaces [CodexThreadEvent] and
    [CodexItem] declare.  The source casts the parsed value to
    [CodexThreadEvent] unchecked.  Here a property that is missing, null,
    or of another type than declared reads as undefined, and a parsed
    value that is no object (the interface leaves none) has no
    properties. *)
Definition get (name : string) (v : json) : option json :=
  match v with
  | JObject members => last_member (js name) members
  | _ => None
  end.

Definition get_string (name : string) (v : json) : option jsstring :=
  match get name v with
  | Some (JString s) => Some s
  | _ => None
  end.

Definition get_object (name : string) (v : json) : option json :=
  match get name v with
  | Some (JObject members) => Some (JObject members)
  | _ => None
  end.

(** [x === "literal"] for a property read [x]. *)
Definition is_string (x : option jsstring) (literal : string) : bool :=
  match x with
  | Some s => jsstring_eqb s (js literal)
  | None => false
  end.

(* ------------------------------------------------------------------ *)
(** *** Numbers: binary64 product and [Math.floor]                      *)

(** The largest magnitude up to which every integer is a binary64
    value. *)
Definition MAX_SAFE : Z := 2 ^ 53.

(** The binary64 value of an integer. *)
Definition of_Z (z : Z) : float :=
  SF2Prim (binary_normalize prec emax z 0 false).

(** [Math.floor(x)] as an integer; [None] when [x] is NaN or infinite,
    where the result is no integer. *)
Definition Math_floor (x : float) : option Z :=
  match Prim2SF x with
  | S754_zero _ => Some 0
  | S754_finite s m e =>
      let sm := if s then Z.neg m else Z.pos m in
      Some (if 0 <=? e then sm * 2 ^ e else sm / 2 ^ (- e))
  | S754_infinity _ | S754_nan => None
  end.

End JS.

(* ================================================================== *)
(** ** settings.ts                                                     *)
(* ================================================================== *)

Module Settings.
Import JS.

Inductive SandboxMode : Type :=
  | read_only | workspace_write | danger_full_access.

Inductive ContextMode : Type :=
  | none | current_note | current_and_linked.

Inductive ReasoningEffort : Type := low | medium | high.

(** The value of a [ReasoningEffort], as the string it is. *)
Definition effort_string (e : ReasoningEffort) : jsstring :=
  match e with
  | low => js "low"
  | medium => js "medium"
  | high => js "high"
  end.

Definition effort_eqb (a b : ReasoningEffort) : bool :=
  jsstring_eqb (effort_string a) (effort_string b).

Record CodexChatSettings : Type := {
  codexBinaryPath : jsstring;
  sandboxMode : SandboxMode;
  contextMode : ContextMode;
  maxContextLength : Z;
  modelOverride : jsstring;
  reasoningEffort : ReasoningEffort;
  memoryTurns : Z;
  contextBudgetRatio : float
}.

Definition DEFAULT_SETTINGS : CodexChatSettings :=
  {| codexBinaryPath := js "codex";
     sandboxMode := read_only;
     contextMode := current_note;
     maxContextLength := 10000;
     modelOverride := [];
     reasoningEffort := medium;
     memoryTurns := 10;
     contextBudgetRatio := 0.6%float |}.

End Settings.

(* ================================================================== *)
(** ** codex-service.ts: [CodexService]                                *)
(* ================================================================== *)

Module CodexService.
Import JS Settings.

(** [args.push(...)] *)
Definition push (args items : list jsstring) : list jsstring := args ++ items.

(** [buildArgs(prompt)] *)
Definition buildArgs (settings : CodexChatSettings) (prompt : jsstring)
  : list jsstring :=
  let args := [js "exec"; js "--json"] in
  let args :=
    match sandboxMode settings with
    | danger_full_access => push args [js "--sandbox"; js "danger-full-access"]
    | workspace_write => push args [js "--full-auto"]
    | read_only => args
    end in
  let args :=
    if truthy (modelOverride settings)
    then push args [js "--model"; modelOverride settings]
    else args in
  let args :=
    if negb (effort_eqb (reasoningEffort settings) medium)
    then push args [js "--reasoning-effort";
                    effort_string (reasoningEffort settings)]
    else args in
  let args := push args [js "--skip-git-repo-check"] in
  let args := push args [prompt] in
  args.

(** The variables one [sendMessage] call closes over. *)
Record Session : Type := {
  fullText : jsstring;
  lastUsage : option json;
  stderrBuffer : jsstring;
  stdoutBuffer : jsstring
}.

Definition initial : Session :=
  {| fullText := []; lastUsage := None;
     stderrBuffer := []; stdoutBuffer := [] |}.

(** An invocation of one of the four callbacks; a missing usage is
    [undefined]. *)
Inductive callback : Type :=
  | onEvent (event : json)
  | onTextChunk (text : jsstring)
  | onComplete (text : jsstring) (usage : option json)
  | onError (error : jsstring).

(** How the promise of [sendMessage] settles. *)
Inductive settled : Type :=
  | resolve
  | reject (message : jsstring).

(** A listener body: it updates the session and invokes callbacks, in
    order. *)
Definition action : Type := Session -> Session * list callback.

Definition skip : action := fun s => (s, []).

Definition seq (a b : action) : action :=
  fun s => let '(s1, c1) := a s in
           let '(s2, c2) := b s1 in
           (s2, c1 ++ c2).

Notation "a ;; b" := (seq a b) (at level 61, right associativity).

Definition call (c : callback) : action := fun s => (s, [c]).

Definition set_fullText (t : jsstring) : action :=
  fun s => ({| fullText := t; lastUsage := lastUsage s;
               stderrBuffer := stderrBuffer s;
               stdoutBuffer := stdoutBuffer s |}, []).

Definition append_fullText (t : jsstring) : action :=
  fun s => set_fullText (fullText s ++ t) s.

Definition set_lastUsage (u : json) : action :=
  fun s => ({| fullText := fullText s; lastUsage := Some u;
               stderrBuffer := stderrBuffer s;
               stdoutBuffer := stdoutBuffer s |}, []).

Definition set_stdoutBuffer (t : jsstring) : action :=
  fun s => ({| fullText := fullText s; lastUsage := lastUsage s;
               stderrBuffer := stderrBuffer s;
               stdoutBuffer := t |}, []).

Definition append_stderrBuffer (t : jsstring) : action :=
  fun s => ({| fullText := fullText s; lastUsage := lastUsage s;
               stderrBuffer := stderrBuffer s ++ t;
               stdoutBuffer := stdoutBuffer s |}, []).

(** [for (const x of xs) body(x)] *)
Fixpoint for_of {A : Type} (xs : list A) (body : A -> action) : action :=
  match xs with
  | [] => skip
  | x :: r => body x ;; for_of r body
  end.

(** [event.item?.text] *)
Definition item_text (event : json) : option jsstring :=
  match get_object "item" event with
  | Some item => get_string "text" item
  | None => None
  end.

(** [event.item?.type === "agent_message" && event.item.text]: the text
    when the condition holds. *)
Definition agent_message_text (event : json) : option jsstring :=
  match get_object "item" event with
  | Some item =>
      if is_string (get_string "type" item) "agent_message"
      then match get_string "text" item with
           | Some t => if truthy t then Some t else None
           | None => None
           end
      else None
  | None => None
  end.

(** [event.error?.message ?? event.item?.text ?? "Unknown error"] *)
Definition error_message (event : json) : jsstring :=
  let message :=
    match get_object "error" event with
    | Some e => get_string "message" e
    | None => None
    end in
  match message with
  | Some m => m
  | None => match item_text event with
            | Some t => t
            | None => js "Unknown error"
            end
  end.

(** [event.type === "turn.failed" || event.type === "error"] *)
Definition is_error_record (event : json) : bool :=
  is_string (get_string "type" event) "turn.failed"
  || is_string (get_string "type" event) "error".

(** The body of the loop over complete lines, after a successful decode. *)
Definition dispatch (event : json) : action :=
  call (onEvent event) ;;
  match agent_message_text event with
  | Some text =>
      if is_string (get_string "type" event) "item.completed"
      then set_fullText text ;; call (onTextChunk text)
      else skip
  | None => skip
  end ;;
  match get_object "usage" event with
  | Some usage =>
      if is_string (get_string "type" event) "turn.completed"
      then set_lastUsage usage
      else skip
  | None => skip
  end ;;
  if is_error_record event
  then call (onError (error_message event))
  else skip.

(** The body of the loop over complete lines. *)
Definition on_line (line : jsstring) : action :=
  let trimmed := trim line in
  if negb (truthy trimmed) then skip
  else match JSON_parse trimmed with
       | None =>
           append_fullText (trimmed ++ [LF]) ;;
           call (onTextChunk (trimmed ++ [LF]))
       | Some event => dispatch event
       end.

(** The stdout listener from the point where the chunk is text. *)
Definition on_stdout_text (text : jsstring) : action :=
  fun s =>
    let buffer := stdoutBuffer s ++ text in
    let lines := split LF buffer in
    (set_stdoutBuffer (last lines []) ;;
     for_of (removelast lines) on_line) s.

(** [stdout.on("data", ...)] *)
Definition on_stdout_data (data : list byte) : action :=
  on_stdout_text (TextDecoder_decode data).

(** [stderr.on("data", ...)] *)
Definition on_stderr_data (data : list byte) : action :=
  append_stderrBuffer (TextDecoder_decode data).

(** The first half of the close listener: what is left in the stdout
    buffer. *)
Definition flush_remaining : action :=
  fun s =>
    let rest := trim (stdoutBuffer s) in
    if truthy rest
    then match JSON_parse rest with
         | Some event =>
             (call (onEvent event) ;;
              match agent_message_text event with
              | Some text => set_fullText text
              | None => skip
              end) s
         | None =>
             (append_fullText rest ;; call (onTextChunk rest)) s
         end
    else skip s.

Definition exit_message (code : Z) : jsstring :=
  js "Codex exited with code " ++ ToString code.

(** The second half of the close listener: the final callback and the
    fate of the promise.  [code] is [None] for null. *)
Definition finish (code : option Z) (s : Session) : list callback * settled :=
  let zero := match code with Some c => c =? 0 | None => false end in
  let nonzero := match code with Some c => negb (c =? 0) | None => false end in
  if zero || truthy (fullText s) then
    ([onComplete (fullText s) (lastUsage s)], resolve)
  else if nonzero then
    let c := match code with Some c => c | None => 0 end in
    if truthy (trim (stderrBuffer s)) && negb (truthy (fullText s))
    then ([onError (exit_message c ++ js ". " ++ slice0 (stderrBuffer s) 500)],
          reject (exit_message c))
    else ([onError (exit_message c)], reject (exit_message c))
  else
    ([onComplete (fullText s) (lastUsage s)], resolve).

(** [process.on("close", ...)] *)
Definition on_close (code : option Z) (s : Session)
  : Session * list callback * settled :=
  let '(s1, c1) := flush_remaining s in
  let '(c2, r) := finish code s1 in
  (s1, c1 ++ c2, r).

(** What the child process delivers before it closes. *)
Inductive output : Type :=
  | stdout (data : list byte)
  | stderr (data : list byte).

Definition on_output (o : output) : action :=
  match o with
  | stdout data => on_stdout_data data
  | stderr data => on_stderr_data data
  end.

(** One [sendMessage] call whose process was spawned: the chunks in
    arrival order, then the close event.  The result is the sequence of
    callback invocations and the fate of the promise. *)
Definition sendMessage (outputs : list output) (code : option Z)
  : list callback * settled :=
  let '(s, c) := for_of outputs on_output initial in
  let '(_, c', r) := on_close code s in
  (c ++ c', r).




(** The bytes of an ASCII text. *)
Definition bytes (s : string) : list byte :=
  map byte_of_ascii (list_ascii_of_string s).

(** The same with apostrophes for double quotes. *)
Definition bytesq (s : string) : list byte :=
  map (fun b => if Byte.eqb b Byte.x27 then Byte.x22 else b) (bytes s).

End CodexService.

(* ================================================================== *)
(** ** context.ts: [VaultContext]                                      *)
(* ================================================================== *)

Module VaultContext.
Import JS.

(** The header line of a note: [`Note: ${title} (${path})\n`]. *)
Definition note_header (title path : jsstring) : jsstring :=
  js "Note: " ++ title ++ js " (" ++ path ++ js ")" ++ [LF].

Definition TRUNCATED : jsstring := [LF] ++ js "...(truncated)".

(** [formatNoteContext(title, path, content, maxLength)] *)
Definition formatNoteContext (title path content : jsstring) (maxLength : Z)
  : jsstring :=
  let header := note_header title path in
  let available := maxLength - str_length header - 10 in
  if available <=? 0 then []
  else
    let trimmedContent :=
      if str_length content >? available
      then slice0 content available ++ TRUNCATED
      else content in
    header ++ trimmedContent ++ [LF].

(** A file of the vault, as far as the context builder looks at it. *)
Record TFile : Type := {
  basename : jsstring;
  path : jsstring;
  extension : jsstring
}.

(** [parts.join(sep)] *)
Fixpoint join (sep : jsstring) (parts : list jsstring) : jsstring :=
  match parts with
  | [] => []
  | [p] => p
  | p :: rest => p ++ sep ++ join sep rest
  end.

(** The rule of forty box-drawing dashes (U+2500). *)
Definition RULE : jsstring := repeat 9472%N 40.

(** The frame both builders put around their sections. *)
Definition framed (title : jsstring) (parts : list jsstring) : jsstring :=
  title ++ [LF] ++ RULE ++ [LF]
    ++ join ([LF] ++ RULE ++ [LF]) parts
    ++ [LF] ++ RULE ++ [LF; LF].

Section Vault.

(** What reading a file gives: [getFileContent], the empty string when
    the read fails. *)
Variable getFileContent : TFile -> jsstring.

(** The notes a note links to: [getLinkedFiles]. *)
Variable getLinkedFiles : TFile -> list TFile.

(** The loop over files that both builders run: a section per file as
    long as the running length is below [maxLength]. *)
Fixpoint sections_loop (files : list TFile) (maxLength totalLength : Z)
  : list jsstring :=
  match files with
  | [] => []
  | file :: rest =>
      if totalLength >=? maxLength then []
      else
        let remaining := maxLength - totalLength in
        let section :=
          formatNoteContext (basename file) (path file)
            (getFileContent file) remaining in
        section :: sections_loop rest maxLength (totalLength + str_length section)
  end.

(** The sections of [buildAtFileContext]. *)
Definition at_file_sections (files : list TFile) (maxLength : Z)
  : list jsstring :=
  sections_loop files maxLength 0.

(** [buildAtFileContext(files, maxLength)] *)
Definition buildAtFileContext (files : list TFile) (maxLength : Z)
  : jsstring :=
  if (List.length files =? 0)%nat then []
  else
    let parts := at_file_sections files maxLength in
    if (List.length parts =? 0)%nat then []
    else framed (js "Referenced files:") parts.

(** The sections of [buildContext] for an active file. *)
Definition context_sections (activeFile : TFile) (mode : Settings.ContextMode)
  (maxLength : Z) : list jsstring :=
  let currentSection :=
    formatNoteContext (basename activeFile) (path activeFile)
      (getFileContent activeFile) maxLength in
  let totalLength := str_length currentSection in
  match mode with
  | Settings.current_and_linked =>
      if totalLength <? maxLength
      then currentSection
             :: sections_loop (getLinkedFiles activeFile) maxLength totalLength
      else [currentSection]
  | _ => [currentSection]
  end.

(** [buildContext(mode, maxLength)]; [activeFile] is what
    [getActiveFile] returns. *)
Definition buildContext (activeFile : option TFile)
  (mode : Settings.ContextMode) (maxLength : Z) : jsstring :=
  match mode with
  | Settings.none => []
  | _ =>
      match activeFile with
      | None => []
      | Some file =>
          let parts := context_sections file mode maxLength in
          if (List.length parts =? 0)%nat then []
          else framed (js "Context from Obsidian vault:") parts
      end
  end.

End Vault.

End VaultContext.

(* ================================================================== *)
(** ** views/chat-view.ts: [CodexChatView]                             *)
(* ================================================================== *)

Module CodexChatView.
Import JS.

Inductive Role : Type := user | assistant.

(** [ChatMessage]; its optional [items] are not read here. *)
Record ChatMessage : Type := {
  role : Role;
  content : jsstring;
  timestamp : Z
}.

Definition role_label (r : Role) : jsstring :=
  match r with
  | user => js "User"
  | assistant => js "Assistant"
  end.

(** [Math.max(500, Math.floor((maxChars - totalLength) / 2))] *)
Definition perMsgLimit (maxChars totalLength : Z) : Z :=
  Z.max 500 ((maxChars - totalLength) / 2).

(** The line of one message under a limit on its content. *)
Definition message_line (msg : ChatMessage) (limit : Z) : jsstring :=
  let content :=
    if str_length (content msg) >? limit
    then slice0 (content msg) limit ++ js "...(truncated)"
    else content msg in
  role_label (role msg) ++ js ": " ++ content ++ [LF].

(** The loop of [buildConversationMemory]: the lines it pushes, from a
    running [totalLength]; the [break] ends it. *)
Fixpoint memory_loop (maxChars : Z) (recentMessages : list ChatMessage)
  (totalLength : Z) : list jsstring :=
  match recentMessages with
  | [] => []
  | msg :: rest =>
      let line := message_line msg (perMsgLimit maxChars totalLength) in
      if totalLength + str_length line >? maxChars then []
      else line :: memory_loop maxChars rest (totalLength + str_length line)
  end.

Definition memory_header : jsstring := js "Previous conversation:" ++ [LF].

(** [buildConversationMemory(maxChars)], with the messages of the view
    and the [memoryTurns] setting as arguments. *)
Definition buildConversationMemory (messages : list ChatMessage)
  (memoryTurns : Z) (maxChars : Z) : jsstring :=
  if (List.length messages =? 0)%nat then []
  else
    let recentMessages := array_slice_from messages (- (memoryTurns * 2)) in
    if (List.length recentMessages =? 0)%nat then []
    else
      let parts :=
        [memory_header]
          ++ memory_loop maxChars recentMessages (str_length memory_header)
          ++ [[LF]] in
      List.concat parts.

(** An integer that binary64 holds exactly, together with its
    neighbours. *)
Definition safe (z : Z) : bool := Z.abs z <=? MAX_SAFE.

(** The split at the head of [handleSend]:
    [vaultBudget = Math.floor(totalBudget * ratio)] and
    [memoryBudget = totalBudget - vaultBudget].  The product is the
    binary64 product.  The budget is a count of characters; the
    difference of two safe integers with a safe result is exact in
    binary64, so it is taken in [Z], and outside that range (or when the
    product is not finite) there is no result. *)
Definition budgets (totalBudget : Z) (ratio : float) : option (Z * Z) :=
  if safe totalBudget then
    match Math_floor (of_Z totalBudget * ratio) with
    | Some vaultBudget =>
        let memoryBudget := totalBudget - vaultBudget in
        if safe vaultBudget && safe memoryBudget
        then Some (vaultBudget, memoryBudget)
        else None
    | None => None
    end
  else None.

End CodexChatView.

(* ================================================================== *)
(** ** sessions.ts: [SessionManager]                                   *)
(* ================================================================== *)

Module SessionManager.
Import JS CodexChatView.

Record ChatSession : Type := {
  id : jsstring;
  name : jsstring;
  messages : list ChatMessage;
  createdAt : Z;
  updatedAt : Z
}.

Definition MAX_PERSISTED_MESSAGES : Z := 50.

(** The fields of the manager. *)
Record Manager : Type := {
  sessions : list ChatSession;
  activeSessionId : option jsstring
}.

(** What a new session object takes from the clock and the random
    generator: its id and the two readings of [Date.now()]. *)
Record Fresh : Type := {
  fresh_id : jsstring;
  created : Z;
  updated : Z
}.

(** [createSessionObject(name)] *)
Definition createSessionObject (n : jsstring) (f : Fresh) : ChatSession :=
  {| id := fresh_id f; name := n; messages := [];
     createdAt := created f; updatedAt := updated f |}.

Definition has_id (i : jsstring) (s : ChatSession) : bool :=
  jsstring_eqb (id s) i.

(** [this.sessions.find((s) => s.id === id)] *)
Definition find_session (i : jsstring) (m : Manager) : option ChatSession :=
  find (has_id i) (sessions m).

(** The plugin data as [load] reads it: an array under [chatSessions], an
    array under [chatMessages], a string under [activeSessionId], each
    possibly missing. *)
Record PluginData : Type := {
  chatSessions : option (list ChatSession);
  chatMessages : option (list ChatMessage);
  data_activeSessionId : option jsstring
}.

(** [load()] *)
Definition load (data : PluginData) (f : Fresh) (m : Manager) : Manager :=
  let loaded :=
    match chatSessions data with
    | Some ss => ss
    | None =>
        match chatMessages data with
        | Some ms =>
            [{| id := fresh_id f; name := js "Chat 1"; messages := ms;
                createdAt := created f; updatedAt := updated f |}]
        | None => sessions m
        end
    end in
  let active :=
    match data_activeSessionId data with
    | Some a => Some a
    | None => match loaded with
              | s :: _ => Some (id s)
              | [] => None
              end
    end in
  match loaded with
  | [] => {| sessions := [createSessionObject (js "Chat 1") f];
             activeSessionId := Some (fresh_id f) |}
  | _ :: _ => {| sessions := loaded; activeSessionId := active |}
  end.

(** What [save()] writes under [chatSessions]. *)
Definition saved_sessions (m : Manager) : list ChatSession :=
  map (fun s =>
         {| id := id s; name := name s;
            messages := array_slice_from (messages s) (- MAX_PERSISTED_MESSAGES);
            createdAt := createdAt s; updatedAt := updatedAt s |})
      (sessions m).

(** [save()]: what it leaves under the three keys, [chatMessages] being
    deleted. *)
Definition save (m : Manager) : PluginData :=
  {| chatSessions := Some (saved_sessions m);
     chatMessages := None;
     data_activeSessionId := activeSessionId m |}.

(** [getActiveSession()] *)
Definition getActiveSession (m : Manager) : option ChatSession :=
  let found :=
    match activeSessionId m with
    | Some a => find_session a m
    | None => None
    end in
  match found with
  | Some s => Some s
  | None => hd_error (sessions m)
  end.

(** [createSession(name)]; a missing name is numbered. *)
Definition createSession (n : option jsstring) (f : Fresh) (m : Manager)
  : Manager * ChatSession :=
  let session :=
    createSessionObject
      (match n with
       | Some x => x
       | None => js "Chat " ++ ToString (Z.of_nat (List.length (sessions m)) + 1)
       end) f in
  ({| sessions := sessions m ++ [session];
      activeSessionId := Some (id session) |}, session).

(** [switchTo(id)] *)
Definition switchTo (i : jsstring) (m : Manager)
  : Manager * option ChatSession :=
  match find_session i m with
  | Some s => ({| sessions := sessions m; activeSessionId := Some i |}, Some s)
  | None => (m, None)
  end.

(** The object that [find] returns is changed in place: the first session
    that satisfies [p]. *)
Fixpoint update_first (p : ChatSession -> bool)
  (change : ChatSession -> ChatSession) (ss : list ChatSession)
  : list ChatSession :=
  match ss with
  | [] => []
  | s :: r => if p s then change s :: r else s :: update_first p change r
  end.

(** [rename(id, newName)] *)
Definition rename (i newName : jsstring) (m : Manager) : Manager :=
  {| sessions :=
       update_first (has_id i)
         (fun s => {| id := id s; name := newName; messages := messages s;
                      createdAt := createdAt s; updatedAt := updatedAt s |})
         (sessions m);
     activeSessionId := activeSessionId m |}.

Definition option_eqb (a : option jsstring) (i : jsstring) : bool :=
  match a with
  | Some x => jsstring_eqb x i
  | None => false
  end.

(** [deleteSession(id)] *)
Definition deleteSession (i : jsstring) (f : Fresh) (m : Manager) : Manager :=
  let kept := filter (fun s => negb (has_id i s)) (sessions m) in
  let active :=
    if option_eqb (activeSessionId m) i
    then match kept with
         | s :: _ => Some (id s)
         | [] => None
         end
    else activeSessionId m in
  match kept with
  | [] => {| sessions := [createSessionObject (js "Chat 1") f];
             activeSessionId := Some (fresh_id f) |}
  | _ :: _ => {| sessions := kept; activeSessionId := active |}
  end.

(** [updateMessages(messages)]: the active session, the object that
    [getActiveSession] returns, takes the messages and the time. *)
Definition updateMessages (ms : list ChatMessage) (now : Z) (m : Manager)
  : Manager :=
  let change s :=
    {| id := id s; name := name s; messages := ms;
       createdAt := createdAt s; updatedAt := now |} in
  let by_id :=
    match activeSessionId m with
    | Some a => match find_session a m with
                | Some _ => Some a
                | None => None
                end
    | None => None
    end in
  {| sessions :=
       match by_id with
       | Some a => update_first (has_id a) change (sessions m)
       | None => update_first (fun _ => true) change (sessions m)
       end;
     activeSessionId := activeSessionId m |}.

(** The active id names a session of a list that is not empty. *)
Definition active_valid (m : Manager) : Prop :=
  exists a, activeSessionId m = Some a /\ In a (map id (sessions m)).

End SessionManager.

(* ================================================================== *)
(** ** views/chat-view.ts: the handlers of a request                   *)
(* ================================================================== *)

Module ChatHandlers.
Import JS Settings CodexService CodexChatView.

(** The fields of the view that the handlers of a request read and
    write; [currentStreamEl] is whether a bubble is attached.  The status
    line, the render timer and the scroll position are left out. *)
Record View : Type := {
  messages : list ChatMessage;
  currentStreamEl : bool;
  currentStreamText : jsstring;
  isGenerating : bool
}.

(** What a handler does besides: the text it sets in the bubble, the
    error it shows there, the final rendering with its copy button, and
    the call of [sessionManager.updateMessages] in [persistMessages]. *)
Inductive effect : Type :=
  | setText (text : jsstring)
  | show_error (error : jsstring)
  | render_final (text : jsstring)
  | updateMessages (ms : list ChatMessage).

Definition handler : Type := View -> View * list effect.

(** [appendStreamText(text)] *)
Definition appendStreamText (text : jsstring) : handler :=
  fun v =>
    let t := currentStreamText v ++ text in
    ({| messages := messages v; currentStreamEl := currentStreamEl v;
        currentStreamText := t; isGenerating := isGenerating v |},
     if currentStreamEl v then [setText t] else []).

(** [finalizeResponse(fullText)], [now] being [Date.now()] *)
Definition finalizeResponse (fullText : jsstring) (now : Z) : handler :=
  fun v =>
    let text := if truthy fullText then fullText else currentStreamText v in
    let ms :=
      messages v
        ++ [{| role := assistant; content := text; timestamp := now |}] in
    ({| messages := ms; currentStreamEl := false;
        currentStreamText := []; isGenerating := false |},
     (if currentStreamEl v && truthy text then [render_final text] else [])
       ++ [updateMessages ms]).

(** [handleStreamError(error)] *)
Definition handleStreamError (error : jsstring) : handler :=
  fun v =>
    ({| messages := messages v; currentStreamEl := false;
        currentStreamText := []; isGenerating := false |},
     if currentStreamEl v then [show_error error] else []).


(** The four callbacks [handleSend] passes to [sendMessage];
    [handleStreamEvent] changes the status line and appends command
    output, and none of the fields above. *)
Definition on_callback (now : Z) (c : callback) : handler :=
  match c with
  | onEvent _ => fun v => (v, [])
  | onTextChunk text => appendStreamText text
  | onComplete fullText _ => finalizeResponse fullText now
  | onError error => handleStreamError error
  end.

(** The callbacks in order, the [n]-th of the request reading the clock
    as [now n]. *)
Fixpoint callbacks (now : nat -> Z) (n : nat) (cs : list callback) : handler :=
  fun v =>
    match cs with
    | [] => (v, [])
    | c :: r =>
        let '(v1, e1) := on_callback (now n) c v in
        let '(v2, e2) := callbacks now (S n) r v1 in
        (v2, e1 ++ e2)
    end.




(** [switchSession(id)], the kill of a running process apart; [now] is
    the clock of [updateMessages].  The view takes a copy of the messages
    of the session it switches to. *)
Definition switchSession (i : jsstring) (now : Z) (v : View)
  (m : SessionManager.Manager) : View * SessionManager.Manager :=
  let m1 := SessionManager.updateMessages (messages v) now m in
  match SessionManager.switchTo i m1 with
  | (m2, Some session) =>
      ({| messages := SessionManager.messages session;
          currentStreamEl := false;
          currentStreamText := [];
          isGenerating := false |}, m2)
  | (m2, None) =>
      ({| messages := messages v;
          currentStreamEl := currentStreamEl v;
          currentStreamText := currentStreamText v;
          isGenerating := false |}, m2)
  end.

(** What [handleSlashCommand] does with a text. *)
Inductive command : Type :=
  | new_session
  | export
  | set_model (name : jsstring)
  | help
  | no_command.

(** The code units that [.] of a regular expression does not match. *)
Definition is_line_terminator (c : N) : bool :=
  match c with
  | 10 | 13 | 8232 | 8233 => true
  | _ => false
  end%N.

(** The longest run that [.*] matches at the head of a text. *)
Fixpoint dot_run (s : jsstring) : jsstring :=
  match s with
  | [] => []
  | c :: r => if is_line_terminator c then [] else c :: dot_run r
  end.

(** [s.startsWith(p)] *)
Definition startsWith (s p : jsstring) : bool :=
  jsstring_eqb (firstn (List.length p) s) p.

(** The last code unit of a text that [.] matches. *)
Fixpoint last_dot (w : jsstring) : option N :=
  match w with
  | [] => None
  | c :: r =>
      match last_dot r with
      | Some d => Some d
      | None => if is_line_terminator c then None else Some c
      end
  end.

(** [trimmed.match(/^\/model\s+(.+)/)?.[1]].  The whitespace of [\s] is
    that of [trim].  After the longest run of whitespace comes a code
    unit that [.] matches, and the group runs to the end of its line;
    when the text ends in the whitespace the matcher gives back
    whitespace until [.] matches, which is at the last code unit of the
    run that is no line terminator, the first of the run apart. *)
Definition model_match (trimmed : jsstring) : option jsstring :=
  if startsWith trimmed (js "/model") then
    let rest := skipn 6 trimmed in
    match rest with
    | [] => None
    | c :: w =>
        if is_white_space c then
          match trimStart rest with
          | [] => option_map (fun d => [d]) (last_dot w)
          | after => Some (dot_run after)
          end
        else None
    end
  else None.

(** [handleSlashCommand(text)]: the command, [no_command] where it
    returns false. *)
Definition handleSlashCommand (text : jsstring) : command :=
  let trimmed := trim text in
  if jsstring_eqb trimmed (js "/clear") || jsstring_eqb trimmed (js "/new")
  then new_session
  else if jsstring_eqb trimmed (js "/export") then export
  else
    match model_match trimmed with
    | Some name => if truthy name then set_model (trim name)
                   else if jsstring_eqb trimmed (js "/help") then help
                   else no_command
    | None => if jsstring_eqb trimmed (js "/help") then help else no_command
    end.

(** [this.plugin.settings.modelOverride = name] *)
Definition with_modelOverride (name : jsstring) (settings : CodexChatSettings)
  : CodexChatSettings :=
  {| codexBinaryPath := codexBinaryPath settings;
     sandboxMode := sandboxMode settings;
     contextMode := contextMode settings;
     maxContextLength := maxContextLength settings;
     modelOverride := name;
     reasoningEffort := reasoningEffort settings;
     memoryTurns := memoryTurns settings;
     contextBudgetRatio := contextBudgetRatio settings |}.





End ChatHandlers.

(* ================================================================== *)
(** ** context.ts: the files a mention names                           *)
(* ================================================================== *)

Module VaultFiles.
Import JS VaultContext.

(** [s.startsWith(p)] *)
Definition startsWith (s p : jsstring) : bool :=
  jsstring_eqb (firstn (List.length p) s) p.

(** [s.includes(p)] *)
Fixpoint includes (s p : jsstring) : bool :=
  startsWith s p
  || match s with
     | [] => false
     | _ :: r => includes r p
     end.

(** [a.slice(0, n)] on an array, for an integral [n]. *)
Definition array_slice_to {A : Type} (a : list A) (n : Z) : list A :=
  if n <? 0
  then firstn (Z.to_nat (Z.max (Z.of_nat (List.length a) + n) 0)) a
  else firstn (Z.to_nat n) a.

Section Files.

(** [String.prototype.toLowerCase] *)
Variable toLowerCase : jsstring -> jsstring.

(** The score [getFileSuggestions] gives a file. *)
Definition score (lower : jsstring) (f : TFile) : Z :=
  let name := toLowerCase (basename f) in
  let p := toLowerCase (path f) in
  if jsstring_eqb name lower then 100
  else if startsWith name lower then 80
  else if startsWith p lower then 70
  else if includes name lower then 50
  else if includes p lower then 30
  else 0.

(** [.sort((a, b) => b.score - a.score)]: the sort of an array is
    stable, so it gives what insertion from the right gives, an entry
    going before the first one of a score that is not higher. *)
Fixpoint insert_by_score (x : TFile * Z) (sorted : list (TFile * Z))
  : list (TFile * Z) :=
  match sorted with
  | [] => [x]
  | y :: r => if snd x <? snd y then y :: insert_by_score x r
              else x :: sorted
  end.

Definition sort_by_score (l : list (TFile * Z)) : list (TFile * Z) :=
  fold_right insert_by_score [] l.

(** The scored and sorted entries of [getFileSuggestions]. *)
Definition scored (partial : jsstring) (files : list TFile)
  : list (TFile * Z) :=
  let lower := toLowerCase partial in
  let allFiles := filter (fun f => jsstring_eqb (extension f) (js "md")) files in
  sort_by_score
    (filter (fun s => snd s >? 0)
       (map (fun f => (f, score lower f)) allFiles)).

(** [getFileSuggestions(partial, limit)]; [files] is what
    [vault.getFiles()] returns. *)
Definition getFileSuggestions (partial : jsstring) (limit : Z)
  (files : list TFile) : list TFile :=
  map fst (array_slice_to (scored partial files) limit).

(** The three tests of [findFile], in its order. *)
Definition path_matches (lower : jsstring) (f : TFile) : bool :=
  jsstring_eqb (toLowerCase (path f)) lower
  || jsstring_eqb (toLowerCase (path f)) (lower ++ js ".md").

Definition name_matches (lower : jsstring) (f : TFile) : bool :=
  jsstring_eqb (toLowerCase (basename f)) lower.

Definition name_starts (lower : jsstring) (f : TFile) : bool :=
  startsWith (toLowerCase (basename f)) lower.

(** [findFile(name, allFiles)] *)
Definition findFile (name : jsstring) (allFiles : list TFile)
  : option TFile :=
  let lower := toLowerCase name in
  match find (path_matches lower) allFiles with
  | Some f => Some f
  | None =>
      match find (name_matches lower) allFiles with
      | Some f => Some f
      | None => find (name_starts lower) allFiles
      end
  end.

End Files.

End VaultFiles.

(* ================================================================== *)
(** ** shell-env.ts                                                    *)
(* ================================================================== *)

Module ShellEnv.
Import JS VaultContext.

(** [path.delimiter] on Linux and macOS, the systems whose install
    locations the module lists. *)
Definition delimiter : N := 58.

Section Host.

(** [process.env["SHELL"]] and [process.env["PATH"]] *)
Variables env_SHELL env_PATH : option jsstring.

(** [existsSync] *)
Variable existsSync : jsstring -> bool.

(** [execSync(cmd, ...)] with the options of the module: the output, or
    nothing when it throws. *)
Variable execSync : jsstring -> option jsstring.

(** [homedir()] and [path.join] *)
Variable homedir : jsstring.
Variable path_join : list jsstring -> jsstring.

Definition COMMON_CODEX_PATHS : list jsstring :=
  [js "/home/linuxbrew/.linuxbrew/bin/codex";
   js "/opt/homebrew/bin/codex";
   js "/usr/local/bin/codex";
   path_join [homedir; js ".local"; js "bin"; js "codex"];
   path_join [homedir; js ".npm-global"; js "bin"; js "codex"];
   path_join [homedir; js ".nvm"; js "versions"]].

(** [detectShell()] *)
Definition detectShell : jsstring :=
  let candidates :=
    [js "/usr/bin/fish"; js "/usr/bin/zsh"; js "/bin/zsh"; js "/bin/bash";
     js "/usr/bin/bash"] in
  match env_SHELL with
  | Some (c :: shell) => c :: shell
  | _ => match find existsSync candidates with
         | Some candidate => candidate
         | None => js "/bin/sh"
         end
  end.

(** [shell.split("/").pop() ?? "sh"] *)
Definition shellName (shell : jsstring) : jsstring :=
  last (split 47 shell) (js "sh").

(** [s.includes(c)] for a text of one code unit. *)
Definition includes_unit (s : jsstring) (c : N) : bool :=
  existsb (N.eqb c) s.

(** The command [getShellPath] runs. *)
Definition echo_path (shell : jsstring) : jsstring :=
  if jsstring_eqb (shellName shell) (js "fish")
  then shell ++ js " -l -c 'echo $PATH'"
  else shell ++ js " -l -c 'echo " ++ [34%N] ++ js "$PATH" ++ [34%N] ++ js "'".

(** [getShellPath()] *)
Definition getShellPath : jsstring :=
  let shell := detectShell in
  let fallback :=
    match env_PATH with
    | Some p => p
    | None => js "/usr/bin:/bin"
    end in
  match execSync (echo_path shell) with
  | Some output =>
      let result := trim output in
      if truthy result then
        if jsstring_eqb (shellName shell) (js "fish")
           && includes_unit result 32 && negb (includes_unit result 58)
        then join [delimiter] (split 32 result)
        else result
      else fallback
  | None => fallback
  end.

(** [resolveCodexBinary(configured)] *)
Definition resolveCodexBinary (configured : jsstring) : jsstring :=
  if match configured with
     | c :: _ => N.eqb c 47
     | [] => false
     end && existsSync configured
  then configured
  else if jsstring_eqb configured (js "codex") then
    let shell := detectShell in
    let by_which :=
      match execSync (shell ++ js " -l -c 'which codex'") with
      | Some output =>
          let result := trim output in
          if truthy result && existsSync result then Some result else None
      | None => None
      end in
    match by_which with
    | Some result => result
    | None =>
        match find existsSync COMMON_CODEX_PATHS with
        | Some candidate => candidate
        | None =>
            let dirs := split delimiter getShellPath in
            match find existsSync
                    (map (fun dir => path_join [dir; js "codex"]) dirs) with
            | Some candidate => candidate
            | None => configured
            end
        end
    end
  else configured.

End Host.

End ShellEnv.

(* ================================================================== *)
(** ** Notions the statements below are phrased with                   *)
(* ================================================================== *)

Module Notions.
Import JS Settings CodexService CodexChatView.



(** All of stdout as text, each chunk decoded by itself as the listener
    does. *)
Fixpoint stdout_text (outputs : list output) : jsstring :=
  match outputs with
  | [] => []
  | stdout data :: r => TextDecoder_decode data ++ stdout_text r
  | stderr _ :: r => stdout_text r
  end.




(** The text and the usage that [dispatch] takes from a record. *)
Definition completed_text (event : json) : option jsstring :=
  match agent_message_text event with
  | Some text =>
      if is_string (get_string "type" event) "item.completed"
      then Some text else None
  | None => None
  end.

Definition completed_usage (event : json) : option json :=
  match get_object "usage" event with
  | Some usage =>
      if is_string (get_string "type" event) "turn.completed"
      then Some usage else None
  | None => None
  end.

(** The final pass over the stdout buffer as section 4.2 of the
    specification words it: the same decode and dispatch as for a
    complete line, except that the raw-text fallback adds no newline. *)
Definition flush_remaining_as_live : action :=
  fun s =>
    let rest := trim (stdoutBuffer s) in
    if truthy rest
    then match JSON_parse rest with
         | Some event => dispatch event s
         | None => (append_fullText rest ;; call (onTextChunk rest)) s
         end
    else skip s.



(** The record of the scenario of section 8: a completed assistant
    message. *)
Definition hi_there_text : string :=
  "{'type':'item.completed','item':{'type':'agent_message','text':'Hi there'}}".

Definition hi_there : json :=
  JObject
    [(js "type", JString (js "item.completed"));
     (js "item",
      JObject [(js "type", JString (js "agent_message"));
               (js "text", JString (js "Hi there"))])].

(** A record by which the agent reports that its turn failed. *)
Definition boom_text : string :=
  "{'type':'turn.failed','error':{'message':'boom'}}".

Definition boom : json :=
  JObject
    [(js "type", JString (js "turn.failed"));
     (js "error", JObject [(js "message", JString (js "boom"))])].

(** A record that closes a turn and reports its usage. *)
Definition usage_text : string :=
  "{'type':'turn.completed','usage':{'input_tokens':7,'cached_input_tokens':0,'output_tokens':3}}".

Definition usage_7_0_3 : json :=
  JObject
    [(js "input_tokens", JNumber (js "7"));
     (js "cached_input_tokens", JNumber (js "0"));
     (js "output_tokens", JNumber (js "3"))].

(** An assistant message announced but not completed. *)
Definition draft_text : string :=
  "{'type':'item.started','item':{'type':'agent_message','text':'draft'}}".

Definition draft : json :=
  JObject
    [(js "type", JString (js "item.started"));
     (js "item",
      JObject [(js "type", JString (js "agent_message"));
               (js "text", JString (js "draft"))])].

(** The session in which [text] is what is left in the stdout buffer. *)
Definition with_remaining (text : jsstring) : Session :=
  {| fullText := []; lastUsage := None;
     stderrBuffer := []; stdoutBuffer := text |}.

(** Lines taken into the conversation memory within a budget: each is the
    line of its message under the limit of the moment, and with each the
    running length stays within [maxChars]. *)
Inductive within_budget (maxChars : Z)
  : Z -> list ChatMessage -> list jsstring -> Prop :=
  | wb_nil (total : Z) : within_budget maxChars total [] []
  | wb_cons (total : Z) (msg : ChatMessage) (msgs : list ChatMessage)
      (line : jsstring) (lines : list jsstring) :
      line = message_line msg (Z.max 500 ((maxChars - total) / 2)) ->
      total + str_length line <= maxChars ->
      within_budget maxChars (total + str_length line) msgs lines ->
      within_budget maxChars total (msg :: msgs) (line :: lines).

(** The ratios and the totals the settings tab offers: the sliders for
    the context budget ratio and for the maximal context length. *)
Definition slider_ratios : list float :=
  [0.1; 0.2; 0.3; 0.4; 0.5; 0.6; 0.7; 0.8; 0.9]%float.

Definition slider_totals : list Z :=
  map (fun k => 1000 * Z.of_nat k) (List.seq 1 50).

(** A message of [n] times the letter x. *)
Definition turn (r : Role) (n : nat) : ChatMessage :=
  {| role := r; content := repeat 120%N n; timestamp := 0 |}.

End Notions.

(* ================================================================== *)
(** ** What a session lets one observe                                 *)
(* ================================================================== *)

Module Observations.
Import JS Settings CodexService Notions.

(** All of stderr as text, chunk by chunk. *)
Fixpoint stderr_text (outputs : list output) : jsstring :=
  match outputs with
  | [] => []
  | stdout _ :: r => stderr_text r
  | stderr data :: r => TextDecoder_decode data ++ stderr_text r
  end.



















End Observations.

(* ================================================================== *)
(** ** auth.ts: [CodexAuth]                                            *)
(* ================================================================== *)

Module CodexAuth.
Import JS CodexService Notions Observations.

Section Status.

(** [String.prototype.toLowerCase] *)
Variable toLowerCase : jsstring -> jsstring.

(** [checkAuthViaCli()] over one spawned [codex login status]: what the
    promise resolves to when the process closes with [code] after the
    chunks [outputs]. *)
Definition checkAuthViaCli (outputs : list output) (code : option Z) : bool :=
  let combined :=
    toLowerCase (stdout_text outputs ++ stderr_text outputs) in
  match code with
  | Some 0 => true
  | _ => VaultFiles.includes combined (js "logged in")
         || VaultFiles.includes combined (js "authenticated")
  end.

End Status.

End CodexAuth.

(* ================================================================== *)
(** ** Facts about the runtime                                         *)
(* ================================================================== *)

Import JS Settings CodexService VaultContext CodexChatView Notions.
Import Observations.

Module SM := SessionManager.
Module CH := ChatHandlers.
Module VF := VaultFiles.
Module SE := ShellEnv.

Section Checks.

Example decode_two_bytes :
  TextDecoder_decode [Byte.xc3; Byte.xa9] = [233%N].
Proof. reflexivity. Qed.

Example decode_cut_short : TextDecoder_decode [Byte.xc3] = [REPLACEMENT].
Proof. reflexivity. Qed.

Example decode_stray_continuation :
  TextDecoder_decode [Byte.xa9; Byte.x41] = [REPLACEMENT; 65%N].
Proof. reflexivity. Qed.

Example decode_four_bytes :
  TextDecoder_decode [Byte.xf0; Byte.x9f; Byte.x98; Byte.x80]
  = [55357; 56832]%N.
Proof. reflexivity. Qed.

Example decode_drops_mark :
  TextDecoder_decode [Byte.xef; Byte.xbb; Byte.xbf; Byte.x41] = [65%N].
Proof. reflexivity. Qed.

Example split_keeps_open_end :
  split LF (js "a" ++ [LF] ++ js "b" ++ [LF] ++ js "c")
  = [js "a"; js "b"; js "c"].
Proof. reflexivity. Qed.

Example split_closed_end :
  split LF (js "a" ++ [LF]) = [js "a"; []].
Proof. reflexivity. Qed.

Example trim_both_ends :
  trim ([13; 9]%N ++ js " a b " ++ [160]%N) = js "a b".
Proof. reflexivity. Qed.

Example parse_record : JSON_parse (jsq hi_there_text) = Some hi_there.
Proof. vm_compute. reflexivity. Qed.

Example parse_nested :
  JSON_parse (jsq " [1, -2.5e+3, true, null, 'a\nb', {}, [] ] ")
  = Some (JArray [JNumber (js "1"); JNumber (js "-2.5e+3"); JBool true;
                  JNull; JString (js "a" ++ [LF] ++ js "b");
                  JObject []; JArray []]).
Proof. vm_compute. reflexivity. Qed.

Example parse_rejects :
  map JSON_parse
    [js "hello"; js "01"; js "1 2"; js "[1,]"; jsq "{'a':1,}"; js "nul";
     js "-"; js "1."; js "[[]"; js "{}}"; jsq "'\x'"; jsq "{1:2}"; js ""]
  = repeat None 13.
Proof. vm_compute. reflexivity. Qed.

Example last_member_wins :
  option_map (get "a") (JSON_parse (jsq "{'a':1,'a':2}"))
  = Some (Some (JNumber (js "2"))).
Proof. vm_compute. reflexivity. Qed.

Example floor_of_product :
  map Math_floor [of_Z 10000 * 0.6; of_Z 11000 * 0.7; -0.5; 2.5]%float
  = [Some 6000; Some 7699; Some (-1); Some 2].
Proof. vm_compute. reflexivity. Qed.

Example ToString_negative : ToString (-15) = js "-15".
Proof. reflexivity. Qed.

Example memory_turns_zero_takes_all :
  array_slice_from [1; 2; 3] (- (0 * 2)) = [1; 2; 3].
Proof. reflexivity. Qed.

End Checks.

Section Lines.

Variable sep : N.

Lemma split_not_nil (s : jsstring) : split sep s <> [].
Proof.
  destruct s as [|c r]; simpl; [discriminate|].
  destruct (N.eqb c sep); [discriminate|].
  destruct (split sep r); discriminate.
Qed.

Lemma split_cons_sep (r : jsstring) :
  split sep (sep :: r) = [] :: split sep r.
Proof. simpl. now rewrite N.eqb_refl. Qed.

Lemma split_cons_other (c : N) (r : jsstring) :
  c <> sep ->
  exists l ls, split sep r = l :: ls /\ split sep (c :: r) = (c :: l) :: ls.
Proof.
  intros Hc. simpl. apply N.eqb_neq in Hc. rewrite Hc.
  destruct (split sep r) as [|l ls] eqn:E.
  - now apply split_not_nil in E.
  - now exists l, ls.
Qed.

(** Splitting a text that arrives in two parts: the complete lines of the
    first part, then the lines of what the first part left open followed
    by the second part. *)
Lemma split_app (x y : jsstring) :
  split sep (x ++ y)
  = removelast (split sep x) ++ split sep (last (split sep x) [] ++ y).
Proof.
  induction x as [|c r IH]; [reflexivity|].
  destruct (N.eq_dec c sep) as [->|Hc].
  - rewrite <- app_comm_cons, !split_cons_sep, IH.
    destruct (split sep r) as [|l ls] eqn:E; [now apply split_not_nil in E|].
    reflexivity.
  - destruct (split_cons_other c r Hc) as (l & ls & E & E').
    rewrite E'.
    destruct (split_cons_other c (r ++ y) Hc) as (l' & ls' & F & F').
    rewrite <- app_comm_cons, F'. rewrite IH, E in F.
    destruct ls as [|l2 ls2].
    + change (removelast [l]) with (@nil jsstring) in F.
      change (last [l] []) with l in F.
      change (removelast [c :: l]) with (@nil jsstring).
      change (last [c :: l] []) with (c :: l).
      destruct (split_cons_other c (l ++ y) Hc) as (l3 & ls3 & G & G').
      rewrite !app_nil_l in *. rewrite <- app_comm_cons, G'. congruence.
    + change (removelast (l :: l2 :: ls2)) with (l :: removelast (l2 :: ls2)) in F.
      change (last (l :: l2 :: ls2) []) with (last (l2 :: ls2) []) in F.
      change (removelast ((c :: l) :: l2 :: ls2))
        with ((c :: l) :: removelast (l2 :: ls2)).
      change (last ((c :: l) :: l2 :: ls2) []) with (last (l2 :: ls2) []).
      rewrite <- app_comm_cons in F. injection F as <- <-. reflexivity.
Qed.

Lemma last_app_right {A : Type} (l l' : list A) (d : A) :
  l' <> [] -> last (l ++ l') d = last l' d.
Proof.
  intros Hl'. induction l as [|a l IH]; [reflexivity|].
  simpl. rewrite IH. destruct (l ++ l') eqn:E; [|reflexivity].
  apply app_eq_nil in E. now destruct E.
Qed.


Lemma last_split_app (x y : jsstring) :
  last (split sep (x ++ y)) []
  = last (split sep (last (split sep x) [] ++ y)) [].
Proof.
  rewrite split_app. apply last_app_right, split_not_nil.
Qed.

End Lines.

(* ================================================================== *)
(** ** Facts about the listeners                                       *)
(* ================================================================== *)

Ltac unfold_basic :=
  unfold call, skip, append_fullText, set_fullText, set_lastUsage,
    set_stdoutBuffer, append_stderrBuffer in *.

Ltac case_split :=
  repeat match goal with
         | |- context [match ?x with _ => _ end] =>
             lazymatch type of x with
             | prod _ _ => fail
             | Session => fail
             | _ => let E := fresh "E" in destruct x eqn:E
             end
         end.

Section Listeners.


Lemma seq_run (a b : action) (s : Session) :
  (a ;; b) s = (fst (b (fst (a s))), snd (a s) ++ snd (b (fst (a s)))).
Proof.
  unfold seq. destruct (a s) as [s1 c1]. cbn [fst snd].
  now destruct (b s1).
Qed.

Lemma for_of_app {A : Type} (xs ys : list A) (body : A -> action)
  (s : Session) :
  for_of (xs ++ ys) body s = (for_of xs body ;; for_of ys body) s.
Proof.
  revert s. induction xs as [|x xs IH]; intros s.
  - rewrite seq_run. cbn [app for_of]. unfold skip. cbn [fst snd app].
    now destruct (for_of ys body s).
  - cbn [app for_of]. rewrite !seq_run, IH, !seq_run. cbn [fst snd].
    now rewrite app_assoc.
Qed.

Lemma dispatch_run (event : json) (s : Session) :
  dispatch event s
  = ({| fullText := match completed_text event with
                    | Some t => t
                    | None => fullText s
                    end;
        lastUsage := match completed_usage event with
                     | Some u => Some u
                     | None => lastUsage s
                     end;
        stderrBuffer := stderrBuffer s;
        stdoutBuffer := stdoutBuffer s |},
     onEvent event
       :: match completed_text event with
          | Some t => [onTextChunk t]
          | None => []
          end
       ++ (if is_error_record event
           then [onError (error_message event)] else [])).
Proof.
  unfold dispatch, completed_text, completed_usage.
  rewrite !seq_run. destruct s as [ft lu eb ob].
  case_split; rewrite ?seq_run; unfold_basic; reflexivity.
Qed.

Lemma on_line_run (line : jsstring) (s : Session) :
  on_line line s
  = if truthy (trim line)
    then match JSON_parse (trim line) with
         | Some event => dispatch event s
         | None =>
             ({| fullText := fullText s ++ trim line ++ [LF];
                 lastUsage := lastUsage s;
                 stderrBuffer := stderrBuffer s;
                 stdoutBuffer := stdoutBuffer s |},
              [onTextChunk (trim line ++ [LF])])
         end
    else (s, []).
Proof.
  unfold on_line. destruct (truthy (trim line)); [|reflexivity].
  cbn [negb]. destruct (JSON_parse (trim line)); [reflexivity|].
  rewrite seq_run. reflexivity.
Qed.


Lemma on_line_set_stdoutBuffer (line b : jsstring) (s : Session) :
  on_line line (fst (set_stdoutBuffer b s))
  = (fst (set_stdoutBuffer b (fst (on_line line s))), snd (on_line line s)).
Proof.
  rewrite !on_line_run. case_split; rewrite ?dispatch_run; reflexivity.
Qed.

Lemma for_of_on_line_set_stdoutBuffer (lines : list jsstring) (b : jsstring)
  (s : Session) :
  for_of lines on_line (fst (set_stdoutBuffer b s))
  = (fst (set_stdoutBuffer b (fst (for_of lines on_line s))),
     snd (for_of lines on_line s)).
Proof.
  revert s. induction lines as [|l lines IH]; intros s; [reflexivity|].
  cbn [for_of]. rewrite !seq_run, on_line_set_stdoutBuffer. cbn [fst snd].
  now rewrite IH.
Qed.


(** The stdout listener, told by the lines of buffer and chunk. *)
Lemma on_stdout_text_run (text : jsstring) (s : Session)
  (lines : list jsstring) :
  split LF (stdoutBuffer s ++ text) = lines ->
  on_stdout_text text s
  = (fst (set_stdoutBuffer (last lines [])
            (fst (for_of (removelast lines) on_line s))),
     snd (for_of (removelast lines) on_line s)).
Proof.
  intros <-. unfold on_stdout_text.
  rewrite seq_run. now rewrite for_of_on_line_set_stdoutBuffer.
Qed.

(** Text that reaches the listener in two chunks is handled as the same
    text in one chunk: same session, same callbacks in the same order. *)
Lemma on_stdout_text_app (t1 t2 : jsstring) (s : Session) :
  (on_stdout_text t1 ;; on_stdout_text t2) s = on_stdout_text (t1 ++ t2) s.
Proof.
  pose proof (split_app LF (stdoutBuffer s ++ t1) t2) as H.
  rewrite <- app_assoc in H.
  set (l1 := split LF (stdoutBuffer s ++ t1)) in *.
  set (l2 := split LF (last l1 [] ++ t2)) in *.
  assert (Hl2 : l2 <> []) by apply split_not_nil.
  rewrite seq_run.
  rewrite (on_stdout_text_run (t1 ++ t2) s _ H).
  rewrite (on_stdout_text_run t1 s l1 eq_refl). cbn [fst snd].
  set (sA := fst (for_of (removelast l1) on_line s)).
  rewrite (on_stdout_text_run t2 (fst (set_stdoutBuffer (last l1 []) sA))
             l2 eq_refl).
  rewrite removelast_app, last_app_right by assumption.
  rewrite for_of_app, seq_run, for_of_on_line_set_stdoutBuffer.
  reflexivity.
Qed.




(** What is left open after a split holds no separator. *)
Lemma split_last_closed (sep : N) (x : jsstring) :
  split sep (last (split sep x) []) = [last (split sep x) []].
Proof.
  pose proof (split_app sep x []) as H.
  rewrite !app_nil_r in H.
  rewrite (app_removelast_last [] (split_not_nil sep x)) in H at 1.
  now apply app_inv_head in H.
Qed.







End Listeners.

Section Chunks.

(** A chunk that brings no newline to the buffer is kept and nothing is
    decoded. *)
Lemma open_fragment_waits (text : jsstring) (s : Session) :
  split LF (stdoutBuffer s ++ text) = [stdoutBuffer s ++ text] ->
  on_stdout_text text s
  = (fst (set_stdoutBuffer (stdoutBuffer s ++ text) s), []).
Proof. intros H. now rewrite (on_stdout_text_run text s _ H). Qed.

Lemma utf8_run_ascii (data : list byte) :
  Forall is_ascii data ->
  utf8_run utf8_init (map Byte.to_N data) = map Byte.to_N data.
Proof.
  induction 1 as [|b data Hb _ IH]; [reflexivity|].
  cbn [map utf8_run]. unfold utf8_handler, utf8_lead.
  cbn [utf8_init bytes_needed N.eqb].
  apply N.leb_le in Hb. rewrite Hb. cbn [app]. now rewrite IH.
Qed.

Lemma TextDecoder_decode_ascii (data : list byte) :
  Forall is_ascii data -> TextDecoder_decode data = map Byte.to_N data.
Proof.
  intros H. unfold TextDecoder_decode. rewrite (utf8_run_ascii data H).
  assert (Hbom : strip_bom (map Byte.to_N data) = map Byte.to_N data).
  { destruct H as [|b data Hb _]; [reflexivity|].
    cbn [map]. unfold strip_bom, is_ascii in *.
    destruct (N.eq_dec (Byte.to_N b) 65279) as [E|E]; [lia|].
    destruct (Byte.to_N b) as [|p]; [reflexivity|].
    repeat (destruct p as [p|p|]; try reflexivity); congruence. }
  rewrite Hbom. clear Hbom.
  induction H as [|b data Hb _ IH]; [reflexivity|].
  cbn [map flat_map]. rewrite IH. unfold utf16_units, is_ascii in *.
  assert (E : (Byte.to_N b <=? 65535)%N = true) by (apply N.leb_le; lia).
  now rewrite E.
Qed.

(** Text that arrives in any number of chunks is handled as the whole
    text in one chunk. *)
Lemma on_stdout_text_chunks (chunks : list jsstring) (s : Session) :
  split LF (stdoutBuffer s) = [stdoutBuffer s] ->
  for_of chunks on_stdout_text s = on_stdout_text (List.concat chunks) s.
Proof.
  revert s. induction chunks as [|c chunks IH]; intros s Hs.
  - cbn [for_of List.concat].
    rewrite (on_stdout_text_run [] s [stdoutBuffer s])
      by now rewrite app_nil_r.
    now destruct s.
  - cbn [for_of List.concat]. rewrite <- on_stdout_text_app, !seq_run.
    rewrite IH; [reflexivity|].
    rewrite (on_stdout_text_run c s _ eq_refl).
    cbn [fst set_stdoutBuffer stdoutBuffer]. apply split_last_closed.
Qed.

(** Chunks of ASCII bytes: where the stream is cut makes no difference. *)
Lemma on_stdout_data_ascii_app (d1 d2 : list byte) (s : Session) :
  Forall is_ascii d1 -> Forall is_ascii d2 ->
  (on_stdout_data d1 ;; on_stdout_data d2) s = on_stdout_data (d1 ++ d2) s.
Proof.
  intros H1 H2. unfold on_stdout_data.
  rewrite on_stdout_text_app.
  rewrite !TextDecoder_decode_ascii, ?map_app; auto.
  now apply Forall_app.
Qed.

End Chunks.

(* ================================================================== *)
(** ** The claims                                                      *)
(* ================================================================== *)




(** C3, where the code departs from the claim.  The three bytes of an e
    with acute accent and a newline: in one chunk onTextChunk receives
    that letter and the newline; with the chunk boundary between the two
    bytes of the letter it receives two replacement characters and the
    newline. *)
Theorem C3_chunk_boundary_inside_character :
  sendMessage [stdout [Byte.xc3; Byte.xa9; Byte.x0a]] (Some 0)
  = ([onTextChunk [233; 10]%N; onComplete [233; 10]%N None], resolve)
  /\ sendMessage [stdout [Byte.xc3]; stdout [Byte.xa9; Byte.x0a]] (Some 0)
     = ([onTextChunk [65533; 65533; 10]%N;
         onComplete [65533; 65533; 10]%N None], resolve).
Proof. vm_compute. split; reflexivity. Qed.






(** C6.  The argument vector is exec and --json, then the sandbox flag
    (none for read-only), then --model with the name when a model
    override is set, then --reasoning-effort with low or high when the
    effort is not medium, then --skip-git-repo-check, then the prompt as
    the last argument.  For the prompt hello under the default settings
    it is exec, --json, --skip-git-repo-check, hello. *)
Theorem C6_argument_vector :
  (forall (settings : CodexChatSettings) (prompt : jsstring),
      exists sandbox model effort : list jsstring,
        buildArgs settings prompt
        = [js "exec"; js "--json"] ++ sandbox ++ model ++ effort
            ++ [js "--skip-git-repo-check"; prompt]
        /\ sandbox
           = match sandboxMode settings with
             | read_only => []
             | workspace_write => [js "--full-auto"]
             | danger_full_access =>
                 [js "--sandbox"; js "danger-full-access"]
             end
        /\ model
           = match modelOverride settings with
             | [] => []
             | _ :: _ => [js "--model"; modelOverride settings]
             end
        /\ effort
           = match reasoningEffort settings with
             | medium => []
             | low => [js "--reasoning-effort"; js "low"]
             | high => [js "--reasoning-effort"; js "high"]
             end
        /\ last (buildArgs settings prompt) [] = prompt)
  /\ buildArgs DEFAULT_SETTINGS (js "hello")
     = [js "exec"; js "--json"; js "--skip-git-repo-check"; js "hello"].
Proof.
  split; [|reflexivity].
  intros settings prompt. unfold buildArgs, push.
  destruct settings as [bin sandbox ctx maxlen model effort turns ratio].
  cbn [sandboxMode modelOverride reasoningEffort].
  eexists _, _, _.
  split; [|split; [reflexivity|split; [reflexivity|split; [reflexivity|]]]].
  - destruct sandbox, model, effort; reflexivity.
  - destruct sandbox, model, effort; reflexivity.
Qed.

(** C7, where the code departs from the claim.  What is left in the
    stdout buffer at close gets a pass of its own, which is not the pass
    a complete line gets: a completed assistant message is not passed to
    onTextChunk, an error record does not reach onError, usage is not
    kept, and an assistant message takes the place of the accumulated
    text whether its record is item.completed or not. *)
Theorem C7_final_pass_differs_from_live :
  (flush_remaining (with_remaining (jsq hi_there_text))
   = ({| fullText := js "Hi there"; lastUsage := None; stderrBuffer := [];
         stdoutBuffer := jsq hi_there_text |},
      [onEvent hi_there])
   /\ flush_remaining_as_live (with_remaining (jsq hi_there_text))
      = ({| fullText := js "Hi there"; lastUsage := None; stderrBuffer := [];
            stdoutBuffer := jsq hi_there_text |},
         [onEvent hi_there; onTextChunk (js "Hi there")]))
  /\ (snd (flush_remaining (with_remaining (jsq boom_text)))
      = [onEvent boom]
      /\ snd (flush_remaining_as_live (with_remaining (jsq boom_text)))
         = [onEvent boom; onError (js "boom")])
  /\ (lastUsage (fst (flush_remaining (with_remaining (jsq usage_text))))
      = None
      /\ lastUsage
           (fst (flush_remaining_as_live (with_remaining (jsq usage_text))))
         = Some usage_7_0_3)
  /\ (fullText (fst (flush_remaining (with_remaining (jsq draft_text))))
      = js "draft"
      /\ fullText
           (fst (flush_remaining_as_live (with_remaining (jsq draft_text))))
         = [])
  /\ sendMessage [stdout (bytesq boom_text)] (Some 0)
     = ([onEvent boom; onComplete [] None], resolve).
Proof. vm_compute. repeat split. Qed.

Section Memory.

Lemma str_length_app (a b : jsstring) :
  str_length (a ++ b) = str_length a + str_length b.
Proof. unfold str_length. rewrite length_app. lia. Qed.

(** The loop takes the lines of the first [n] messages, within the
    budget, and stops at the first message whose line does not fit. *)
Lemma memory_loop_within_budget (maxChars : Z) (msgs : list ChatMessage) :
  forall total : Z,
  exists n : nat,
    (n <= List.length msgs)%nat
    /\ within_budget maxChars total (firstn n msgs)
         (memory_loop maxChars msgs total)
    /\ match nth_error msgs n with
       | Some msg =>
           let total' :=
             total
             + str_length (List.concat (memory_loop maxChars msgs total)) in
           maxChars
           < total' + str_length (message_line msg (perMsgLimit maxChars total'))
       | None => True
       end.
Proof.
  induction msgs as [|msg rest IH]; intros total.
  - exists 0%nat. split; [cbn; lia|]. split; [constructor|exact I].
  - cbn [memory_loop].
    set (line := message_line msg (perMsgLimit maxChars total)).
    destruct (total + str_length line >? maxChars) eqn:E.
    + exists 0%nat. split; [cbn; lia|]. split; [constructor|].
      cbn [nth_error List.concat]. change (str_length []) with 0.
      rewrite Z.add_0_r. fold line. lia.
    + destruct (IH (total + str_length line)) as (n & Hn & Hwb & Hstop).
      exists (S n). split; [cbn; lia|]. split.
      * cbn [firstn]. apply wb_cons; [reflexivity|lia|exact Hwb].
      * cbn [nth_error]. destruct (nth_error rest n) as [msg'|]; [|exact I].
        cbn zeta in *. cbn [List.concat].
        rewrite str_length_app, Z.add_assoc. exact Hstop.
Qed.

(** The line of a message under the limit of the loop: the content as it
    is, or its first [limit] characters and the truncation mark. *)
Lemma message_line_capped (msg : ChatMessage) (maxChars total : Z) :
  let limit := perMsgLimit maxChars total in
  message_line msg limit
  = role_label (role msg) ++ js ": "
      ++ (if str_length (content msg) >? limit
          then firstn (Z.to_nat limit) (content msg) ++ js "...(truncated)"
          else content msg)
      ++ [LF].
Proof.
  intros limit. unfold message_line, slice0.
  assert (E : (limit <? 0) = false).
  { apply Z.ltb_ge. unfold limit, perMsgLimit. lia. }
  now rewrite E.
Qed.

End Memory.

(** C8 (as the code has it).  Conversation memory takes the lines of a
    leading run of the recent messages: each line is the role-prefixed
    message whose content was first cut to the larger of 500 and half of
    what remains of the budget, no line is taken whose addition would
    carry the running length past the budget, and the first line that
    does not fit ends the inclusion.  With a budget of 4000 and two turns
    of 3000 characters both turns are included, cut to 1988 and to 984
    characters with the truncation mark appended. *)
Theorem C8_memory_budget :
  (forall (maxChars : Z) (msgs : list ChatMessage) (total : Z),
      exists n : nat,
        (n <= List.length msgs)%nat
        /\ within_budget maxChars total (firstn n msgs)
             (memory_loop maxChars msgs total)
        /\ match nth_error msgs n with
           | Some msg =>
               let total' :=
                 total
                 + str_length (List.concat (memory_loop maxChars msgs total)) in
               maxChars
               < total'
                 + str_length (message_line msg (perMsgLimit maxChars total'))
           | None => True
           end)
  /\ (forall (msg : ChatMessage) (maxChars total : Z),
        let limit := Z.max 500 ((maxChars - total) / 2) in
        message_line msg limit
        = role_label (role msg) ++ js ": "
            ++ (if str_length (content msg) >? limit
                then firstn (Z.to_nat limit) (content msg)
                       ++ js "...(truncated)"
                else content msg)
            ++ [LF])
  /\ buildConversationMemory [turn user 3000; turn assistant 3000] 10 4000
     = memory_header
         ++ (js "User: " ++ repeat 120%N 1988 ++ js "...(truncated)" ++ [LF])
         ++ (js "Assistant: " ++ repeat 120%N 984 ++ js "...(truncated)"
               ++ [LF])
         ++ [LF].
Proof.
  split; [|split].
  - intros maxChars msgs total. apply memory_loop_within_budget.
  - intros msg maxChars total. apply message_line_capped.
  - vm_compute. reflexivity.
Qed.

(** C8, the claim as stated fails: with a budget of 4000 and two turns of
    3000 characters the second turn is included as well, cut to 984
    characters. *)
Lemma C8_second_turn_included :
  nth_error
    (memory_loop 4000 [turn user 3000; turn assistant 3000]
       (str_length memory_header)) 1
  = Some (js "Assistant: " ++ repeat 120%N 984 ++ js "...(truncated)" ++ [LF]).
Proof. vm_compute. reflexivity. Qed.



(** For every total and every ratio the two sliders of the settings tab
    offer, the split has a result, neither share is negative, and the
    binary64 difference of total and context share is the memory share. *)
Lemma budgets_on_sliders :
  forallb
    (fun total =>
       forallb
         (fun ratio =>
            match budgets total ratio with
            | Some (v, m) =>
                (0 <=? v) && (0 <=? m) && (v + m =? total)
                && match Math_floor (of_Z total - of_Z v) with
                   | Some m' => m' =? m
                   | None => false
                   end
            | None => false
            end)
         slider_ratios)
    slider_totals
  = true.
Proof. vm_compute. reflexivity. Qed.



(* ================================================================== *)
(** ** Further properties of the stdout, stderr and close listeners    *)
(* ================================================================== *)

Section Sessions.


























End Sessions.






Section Texts.

Variables (out err : jsstring).

Let lines := split LF out.


End Texts.






(* ================================================================== *)
(** ** Further properties of the context and memory builders           *)
(* ================================================================== *)

Section Context.

Variable getFileContent : TFile -> jsstring.
Variable getLinkedFiles : TFile -> list TFile.

Lemma str_length_nonneg (x : jsstring) : 0 <= str_length x.
Proof. unfold str_length. lia. Qed.

(** The length of a formatted note: nothing, or at most [maxLength - 9]
    when the content fits, or [maxLength + 6] when it was cut. *)
Lemma formatNoteContext_length (title path content : jsstring)
  (maxLength : Z) :
  let available := maxLength - str_length (note_header title path) - 10 in
  let r := formatNoteContext title path content maxLength in
  (available <= 0 /\ r = [])
  \/ (0 < available /\ str_length content <= available
      /\ str_length r
         = str_length (note_header title path) + str_length content + 1)
  \/ (0 < available /\ available < str_length content
      /\ str_length r = maxLength + 6).
Proof.
  intros available r. subst r. unfold formatNoteContext. fold available.
  destruct (Z.leb_spec available 0) as [Hle|Hgt]; [now left|right].
  unfold slice0.
  assert (E0 : (available <? 0) = false) by (apply Z.ltb_ge; lia).
  rewrite E0. rewrite !str_length_app. change (str_length [LF]) with 1.
  destruct (Z.gtb_spec (str_length content) available) as [Hcut|Hfit].
  - right. split; [exact Hgt|]. split; [exact Hcut|].
    rewrite str_length_app. change (str_length TRUNCATED) with 15.
    assert (str_length (firstn (Z.to_nat available) content) = available).
    { unfold str_length in *. rewrite firstn_length_le; lia. }
    unfold available in *. lia.
  - left. split; [exact Hgt|]. split; [exact Hfit|lia].
Qed.

(** The running length of the loop never passes [maxLength + 6]. *)
Lemma sections_loop_total (files : list TFile) (maxLength : Z) :
  forall total : Z,
    total
    + str_length
        (List.concat (sections_loop getFileContent files maxLength total))
    <= Z.max total (maxLength + 6).
Proof.
  induction files as [|file rest IH]; intros total.
  - cbn [sections_loop List.concat]. change (str_length []) with 0. lia.
  - cbn [sections_loop].
    destruct (Z.geb_spec total maxLength) as [Hge|Hlt].
    + cbn [List.concat]. change (str_length []) with 0. lia.
    + cbn zeta. cbn [List.concat]. rewrite str_length_app.
      set (section := formatNoteContext (basename file) (path file)
                        (getFileContent file) (maxLength - total)).
      specialize (IH (total + str_length section)).
      pose proof (formatNoteContext_length (basename file) (path file)
                    (getFileContent file) (maxLength - total)) as H.
      cbn zeta in H. fold section in H.
      pose proof (str_length_nonneg
                    (note_header (basename file) (path file))).
      destruct H as [(_ & H)|[(? & ? & H)|(? & ? & H)]].
      * rewrite H in *. change (str_length []) with 0 in *. lia.
      * lia.
      * lia.
Qed.

Lemma sections_loop_count (files : list TFile) (maxLength : Z) :
  forall total : Z,
    (List.length (sections_loop getFileContent files maxLength total)
     <= List.length files)%nat.
Proof.
  induction files as [|file rest IH]; intros total; [cbn; lia|].
  cbn [sections_loop]. destruct (total >=? maxLength); [cbn; lia|].
  cbn zeta. cbn [List.length]. specialize (IH (total + str_length
    (formatNoteContext (basename file) (path file) (getFileContent file)
       (maxLength - total)))). lia.
Qed.

Lemma framed_not_nil (title : jsstring) (parts : list jsstring) :
  framed title parts <> [].
Proof.
  unfold framed. intros H.
  apply app_eq_nil in H. destruct H as [_ H]. discriminate.
Qed.

End Context.

(** X7.  A formatted note that was cut is six characters longer than the
    maximal length it was given; one whose content fits takes at most the
    maximal length less nine; and it is empty exactly when the available
    length is not positive. *)
Theorem formatNoteContext_overshoot (title path content : jsstring)
  (maxLength : Z) :
  let available := maxLength - str_length (note_header title path) - 10 in
  let r := formatNoteContext title path content maxLength in
  (r = [] <-> available <= 0)
  /\ (0 < available ->
      str_length content <= available ->
      str_length r <= maxLength - 9)
  /\ (0 < available ->
      available < str_length content ->
      str_length r = maxLength + 6).
Proof.
  intros available r.
  pose proof (formatNoteContext_length title path content maxLength) as H.
  cbn zeta in H. fold available r in H.
  pose proof (str_length_nonneg content).
  pose proof (str_length_nonneg (note_header title path)).
  split; [split|split].
  - intros Hr. destruct H as [(? & _)|[(? & ? & H)|(? & ? & H)]];
      [assumption| |]; rewrite Hr in H; change (str_length []) with 0 in H;
      unfold available in *; lia.
  - intros Hle. destruct H as [(_ & H)|[(? & _)|(? & _)]]; [exact H|lia|lia].
  - intros Hpos Hfit. destruct H as [(? & _)|[(_ & _ & H)|(_ & ? & _)]];
      [lia| |lia]. unfold available in *. lia.
  - intros Hpos Hcut. destruct H as [(? & _)|[(_ & ? & _)|(_ & _ & H)]];
      [lia|lia|exact H].
Qed.

(** X7 at a note whose content is cut to five characters. *)
Lemma formatNoteContext_overshoot_witness :
  str_length (formatNoteContext (js "T") (js "p.md") (js "hello world") 30)
  = 30 + 6
  /\ str_length (formatNoteContext (js "T") (js "p.md") (js "hello") 40)
     <= 40 - 9.
Proof.
  split.
  - refine (proj2 (proj2 (formatNoteContext_overshoot (js "T") (js "p.md")
                            (js "hello world") 30)) _ _);
      vm_compute; reflexivity.
  - refine (proj1 (proj2 (formatNoteContext_overshoot (js "T") (js "p.md")
                            (js "hello") 40)) _ _);
      vm_compute; [reflexivity|discriminate].
Defined.

(** X8.  buildAtFileContext makes at most one section per file, and the
    sections together are at most [maxLength + 6] characters long; the
    frame around them is not counted.  The result is empty only when
    there is no file or the maximal length is not positive: with a file
    and a positive length it is the frame even when no content fits. *)
Theorem buildAtFileContext_budget (getFileContent : TFile -> jsstring)
  (files : list TFile) (maxLength : Z) :
  let parts := at_file_sections getFileContent files maxLength in
  (List.length parts <= List.length files)%nat
  /\ str_length (List.concat parts) <= Z.max 0 (maxLength + 6)
  /\ (buildAtFileContext getFileContent files maxLength = []
      <-> files = [] \/ maxLength <= 0).
Proof.
  intros parts. split; [apply sections_loop_count|]. split.
  - pose proof (sections_loop_total getFileContent files maxLength 0) as H.
    fold (at_file_sections getFileContent files maxLength) in H.
    fold parts in H. lia.
  - unfold buildAtFileContext. fold parts.
    destruct files as [|file rest]; [cbn; tauto|].
    cbn [List.length Nat.eqb]. subst parts.
    unfold at_file_sections. cbn [sections_loop].
    destruct (Z.geb_spec 0 maxLength) as [Hge|Hlt].
    + cbn [List.length Nat.eqb]. split; [right; lia|reflexivity].
    + cbn zeta. cbn [List.length Nat.eqb]. split.
      * intros H. now apply framed_not_nil in H.
      * intros [H|H]; [discriminate|lia].
Qed.

(** X9.  With an active note and a mode other than none, buildContext
    never returns the empty string, whatever the maximal length: when
    the note does not fit, the result is the frame around an empty
    section.  Its sections together are at most [maxLength + 6]
    characters long.  Without an active note, or in the mode none, the
    result is empty. *)
Theorem buildContext_frame (getFileContent : TFile -> jsstring)
  (getLinkedFiles : TFile -> list TFile) (file : TFile)
  (mode : Settings.ContextMode) (maxLength : Z) :
  buildContext getFileContent getLinkedFiles None mode maxLength = []
  /\ buildContext getFileContent getLinkedFiles (Some file) Settings.none
       maxLength = []
  /\ match mode with
     | Settings.none => True
     | _ =>
         buildContext getFileContent getLinkedFiles (Some file) mode maxLength
         = framed (js "Context from Obsidian vault:")
             (context_sections getFileContent getLinkedFiles file mode
                maxLength)
         /\ buildContext getFileContent getLinkedFiles (Some file) mode
              maxLength <> []
     end
  /\ str_length
       (List.concat
          (context_sections getFileContent getLinkedFiles file mode maxLength))
     <= Z.max 0 (maxLength + 6).
Proof.
  split; [now destruct mode|]. split; [reflexivity|]. split.
  - assert (Hparts : forall m,
               (List.length (context_sections getFileContent getLinkedFiles
                               file m maxLength) =? 0)%nat = false).
    { intros m. unfold context_sections.
      destruct m; try reflexivity.
      now destruct (_ <? _). }
    destruct mode; [exact I| |]; unfold buildContext; rewrite Hparts;
      (split; [reflexivity|apply framed_not_nil]).
  - unfold context_sections.
    set (current := formatNoteContext (basename file) (path file)
                      (getFileContent file) maxLength).
    pose proof (formatNoteContext_length (basename file) (path file)
                  (getFileContent file) maxLength) as H.
    cbn zeta in H. fold current in H.
    pose proof (str_length_nonneg (note_header (basename file) (path file))).
    pose proof (str_length_nonneg (getFileContent file)).
    assert (Hcur : str_length current <= Z.max 0 (maxLength + 6)).
    { destruct H as [(_ & H)|[(? & ? & H)|(? & ? & H)]];
        [rewrite H; change (str_length []) with 0|..]; lia. }
    assert (Hone : str_length (List.concat [current])
                   <= Z.max 0 (maxLength + 6)).
    { cbn [List.concat]. now rewrite app_nil_r. }
    destruct mode; try exact Hone.
    destruct (Z.ltb_spec (str_length current) maxLength) as [Hlt|Hge];
      [|exact Hone].
    cbn [List.concat]. rewrite str_length_app.
    pose proof (sections_loop_total getFileContent (getLinkedFiles file)
                  maxLength (str_length current)). lia.
Qed.

Section MemoryLength.

Lemma memory_loop_total (maxChars : Z) (msgs : list ChatMessage) :
  forall total : Z,
    total + str_length (List.concat (memory_loop maxChars msgs total))
    <= Z.max total maxChars.
Proof.
  induction msgs as [|msg rest IH]; intros total.
  - cbn [memory_loop List.concat]. change (str_length []) with 0. lia.
  - cbn [memory_loop].
    set (line := message_line msg (perMsgLimit maxChars total)).
    destruct (Z.gtb_spec (total + str_length line) maxChars) as [Hgt|Hle].
    + cbn [List.concat]. change (str_length []) with 0. lia.
    + cbn [List.concat]. rewrite str_length_app.
      specialize (IH (total + str_length line)).
      pose proof (str_length_nonneg line). lia.
Qed.

Lemma recent_not_nil (messages : list ChatMessage) (memoryTurns : Z) :
  messages <> [] -> 0 <= memoryTurns ->
  array_slice_from messages (- (memoryTurns * 2)) <> [].
Proof.
  intros Hne Hturns. unfold array_slice_from.
  destruct messages as [|m messages]; [contradiction|].
  destruct (Z.ltb_spec (- (memoryTurns * 2)) 0) as [Hneg|Hzero].
  - intros H.
    assert (Hlen : List.length
                     (skipn (Z.to_nat (Z.max (Z.of_nat (List.length (m :: messages))
                                              + - (memoryTurns * 2)) 0))
                        (m :: messages)) = 0%nat) by now rewrite H.
    rewrite length_skipn in Hlen. cbn [List.length] in *. lia.
  - replace (- (memoryTurns * 2)) with 0 by lia. discriminate.
Qed.

End MemoryLength.

(** X10.  The conversation memory is at most one character longer than
    its budget, or 24 characters when the budget is smaller than that:
    header and closing newline are written whatever the budget.  With
    any message in the view and a memory depth that is not negative the
    result begins with the header, so it is never empty. *)
Theorem memory_length (messages : list ChatMessage) (memoryTurns maxChars : Z) :
  str_length (buildConversationMemory messages memoryTurns maxChars)
  <= Z.max 24 (maxChars + 1)
  /\ (messages <> [] -> 0 <= memoryTurns ->
      exists rest,
        buildConversationMemory messages memoryTurns maxChars
        = memory_header ++ rest
        /\ 1 <= str_length rest).
Proof.
  unfold buildConversationMemory.
  set (recent := array_slice_from messages (- (memoryTurns * 2))).
  pose proof (memory_loop_total maxChars recent (str_length memory_header))
    as Hsum.
  change (str_length memory_header) with 23 in *.
  set (lines := memory_loop maxChars recent 23) in *.
  assert (Hbody : List.concat ([memory_header] ++ lines ++ [[LF]])
                  = memory_header ++ List.concat lines ++ [LF]).
  { cbn [app List.concat]. rewrite concat_app. cbn [List.concat].
    now rewrite app_nil_r. }
  split.
  - destruct messages as [|m messages]; [cbn; lia|].
    cbn [List.length Nat.eqb].
    destruct recent as [|r recent'] eqn:Er; [cbn; lia|].
    cbn [List.length Nat.eqb]. rewrite Hbody, !str_length_app.
    change (str_length memory_header) with 23.
    change (str_length [LF]) with 1. lia.
  - intros Hne Hturns.
    pose proof (recent_not_nil messages memoryTurns Hne Hturns) as Hrec.
    fold recent in Hrec.
    destruct messages as [|m messages]; [contradiction|].
    cbn [List.length Nat.eqb].
    destruct recent as [|r recent'] eqn:Er; [contradiction|].
    cbn [List.length Nat.eqb]. rewrite Hbody.
    exists (List.concat lines ++ [LF]). split; [reflexivity|].
    rewrite str_length_app. change (str_length [LF]) with 1.
    pose proof (str_length_nonneg (List.concat lines)). lia.
Qed.

(** X10 at one short message and a budget of zero. *)
Lemma memory_length_witness :
  exists rest,
    buildConversationMemory [turn user 3] 10 0 = memory_header ++ rest
    /\ 1 <= str_length rest.
Proof.
  apply (proj2 (memory_length [turn user 3] 10 0)).
  - discriminate.
  - lia.
Defined.

(* ================================================================== *)
(** ** Properties of the session manager                               *)
(* ================================================================== *)

Section Manager.

Lemma jsstring_eqb_eq (a b : jsstring) : jsstring_eqb a b = true <-> a = b.
Proof.
  unfold jsstring_eqb. destruct (list_eq_dec N.eq_dec a b); split;
    congruence.
Qed.

Lemma jsstring_eqb_refl (a : jsstring) : jsstring_eqb a a = true.
Proof. now apply jsstring_eqb_eq. Qed.

Lemma find_session_some (i : jsstring) (m : SM.Manager) (s : SM.ChatSession) :
  SM.find_session i m = Some s ->
  SM.id s = i /\ In s (SM.sessions m) /\ In i (map SM.id (SM.sessions m)).
Proof.
  unfold SM.find_session. intros H. apply find_some in H.
  destruct H as [Hin Hid]. apply jsstring_eqb_eq in Hid.
  repeat split; try assumption. rewrite <- Hid. now apply in_map.
Qed.

Lemma find_session_none (i : jsstring) (m : SM.Manager) :
  SM.find_session i m = None -> ~ In i (map SM.id (SM.sessions m)).
Proof.
  unfold SM.find_session. intros H Hin. apply in_map_iff in Hin.
  destruct Hin as (s & Hid & Hin).
  apply (find_none _ _ H) in Hin. unfold SM.has_id in Hin.
  rewrite Hid, jsstring_eqb_refl in Hin. discriminate.
Qed.

Lemma update_first_ids (p : SM.ChatSession -> bool)
  (change : SM.ChatSession -> SM.ChatSession) (ss : list SM.ChatSession) :
  (forall s, SM.id (change s) = SM.id s) ->
  map SM.id (SM.update_first p change ss) = map SM.id ss.
Proof.
  intros Hid. induction ss as [|s r IH]; [reflexivity|].
  cbn [SM.update_first]. destruct (p s); cbn [map]; now rewrite ?Hid, ?IH.
Qed.

Lemma find_update_first (i : jsstring)
  (change : SM.ChatSession -> SM.ChatSession) (ss : list SM.ChatSession) :
  (forall s, SM.id (change s) = SM.id s) ->
  find (SM.has_id i) (SM.update_first (SM.has_id i) change ss)
  = option_map change (find (SM.has_id i) ss).
Proof.
  intros Hid. induction ss as [|s r IH]; [reflexivity|].
  cbn [SM.update_first find]. destruct (SM.has_id i s) eqn:E.
  - cbn [find]. unfold SM.has_id in *. now rewrite Hid, E.
  - cbn [find]. now rewrite E.
Qed.

Lemma find_update_other (i : jsstring) (p : SM.ChatSession -> bool)
  (change : SM.ChatSession -> SM.ChatSession) (ss : list SM.ChatSession) :
  (forall s, SM.id (change s) = SM.id s) ->
  find (SM.has_id i) ss = None ->
  find (SM.has_id i) (SM.update_first p change ss) = None.
Proof.
  intros Hid. induction ss as [|s r IH]; [reflexivity|].
  cbn [SM.update_first find]. destruct (SM.has_id i s) eqn:E; [discriminate|].
  intros H. destruct (p s); cbn [find].
  - unfold SM.has_id in *. now rewrite Hid, E.
  - rewrite E. now apply IH.
Qed.

Lemma filter_other_ids (i : jsstring) (ss : list SM.ChatSession) :
  ~ In i (map SM.id (filter (fun s => negb (SM.has_id i s)) ss)).
Proof.
  intros H. apply in_map_iff in H. destruct H as (s & Hid & Hin).
  apply filter_In in Hin. destruct Hin as [_ Hn].
  unfold SM.has_id in Hn. now rewrite Hid, jsstring_eqb_refl in Hn.
Qed.

Lemma filter_keeps_id (i a : jsstring) (ss : list SM.ChatSession) :
  a <> i -> In a (map SM.id ss) ->
  In a (map SM.id (filter (fun s => negb (SM.has_id i s)) ss)).
Proof.
  intros Hne H. apply in_map_iff in H. destruct H as (s & Hid & Hin).
  apply in_map_iff. exists s. split; [exact Hid|].
  apply filter_In. split; [exact Hin|].
  unfold SM.has_id. destruct (jsstring_eqb (SM.id s) i) eqn:E; [|reflexivity].
  apply jsstring_eqb_eq in E. congruence.
Qed.

End Manager.

(** X11.  Once the active id names one of the sessions, it goes on doing
    so, and the list of sessions stays non-empty, through createSession,
    switchTo, rename, deleteSession and updateMessages, whatever their
    arguments. *)
Theorem active_session_kept (m : SM.Manager) :
  SM.active_valid m ->
  (forall n f, SM.active_valid (fst (SM.createSession n f m)))
  /\ (forall i, SM.active_valid (fst (SM.switchTo i m)))
  /\ (forall i n, SM.active_valid (SM.rename i n m))
  /\ (forall i f, SM.active_valid (SM.deleteSession i f m))
  /\ (forall ms now, SM.active_valid (SM.updateMessages ms now m)).
Proof.
  intros (a & Ha & Hin). repeat split.
  - intros n f. unfold SM.active_valid, SM.createSession. cbn [fst].
    eexists. split; [reflexivity|].
    cbn [SM.sessions]. rewrite map_app. apply in_or_app. right. now left.
  - intros i. unfold SM.switchTo.
    destruct (SM.find_session i m) as [s|] eqn:E; cbn [fst].
    + apply find_session_some in E. destruct E as (_ & _ & E).
      exists i. now split.
    + now exists a.
  - intros i n. exists a. split; [exact Ha|].
    cbn [SM.rename SM.sessions]. now rewrite update_first_ids.
  - intros i f. unfold SM.deleteSession.
    set (kept := filter (fun s => negb (SM.has_id i s)) (SM.sessions m)).
    destruct kept as [|k kept'] eqn:Ek.
    + eexists. split; [reflexivity|]. now left.
    + rewrite Ha. cbn [SM.option_eqb].
      destruct (jsstring_eqb a i) eqn:E.
      * eexists. split; [reflexivity|]. now left.
      * exists a. split; [reflexivity|]. cbn [SM.sessions].
        rewrite <- Ek. apply filter_keeps_id; [|exact Hin].
        intros ->. now rewrite jsstring_eqb_refl in E.
  - intros ms now. exists a. split; [exact Ha|].
    cbn [SM.updateMessages SM.sessions].
    destruct (match SM.activeSessionId m with
              | Some a0 => match SM.find_session a0 m with
                           | Some _ => Some a0
                           | None => None
                           end
              | None => None
              end); now rewrite update_first_ids.
Qed.

(** X11 at a manager of one session. *)
Lemma active_session_kept_witness :
  SM.active_valid
    (SM.deleteSession (js "a")
       {| SM.fresh_id := js "b"; SM.created := 1; SM.updated := 1 |}
       {| SM.sessions :=
            [SM.createSessionObject (js "Chat 1")
               {| SM.fresh_id := js "a"; SM.created := 0; SM.updated := 0 |}];
          SM.activeSessionId := Some (js "a") |}).
Proof.
  refine (proj1 (proj2 (proj2 (proj2 (active_session_kept _ _)))) _ _).
  exists (js "a"). split; [reflexivity|]. now left.
Defined.

(** X12.  updateMessages followed by getActiveSession gives back the
    messages handed in, whenever there is a session at all: the session
    that is written is the one that is read. *)
Theorem update_then_get (ms : list ChatMessage) (now : Z) (m : SM.Manager) :
  SM.sessions m <> [] ->
  exists s,
    SM.getActiveSession (SM.updateMessages ms now m) = Some s
    /\ SM.messages s = ms /\ SM.updatedAt s = now
    /\ option_map SM.id (SM.getActiveSession m) = Some (SM.id s).
Proof.
  intros Hne. unfold SM.getActiveSession, SM.updateMessages.
  cbn [SM.activeSessionId].
  set (change := fun s => {| SM.id := SM.id s; SM.name := SM.name s;
                             SM.messages := ms;
                             SM.createdAt := SM.createdAt s;
                             SM.updatedAt := now |}).
  assert (Hid : forall s, SM.id (change s) = SM.id s) by reflexivity.
  assert (Hhead : forall a,
             find (SM.has_id a) (SM.sessions m) = None ->
             exists s,
               match find (SM.has_id a)
                       (SM.update_first (fun _ => true) change (SM.sessions m))
               with
               | Some x => Some x
               | None => hd_error (SM.update_first (fun _ => true) change
                                     (SM.sessions m))
               end = Some s
               /\ SM.messages s = ms /\ SM.updatedAt s = now
               /\ option_map SM.id (hd_error (SM.sessions m))
                  = Some (SM.id s)).
  { intros a Hnone.
    rewrite (find_update_other a _ change _ Hid Hnone).
    destruct (SM.sessions m) as [|s r]; [contradiction|].
    exists (change s). repeat split. }
  destruct (SM.activeSessionId m) as [a|].
  - unfold SM.find_session. cbn [SM.sessions].
    destruct (find (SM.has_id a) (SM.sessions m)) as [s|] eqn:E.
    + rewrite (find_update_first a change _ Hid), E. cbn [option_map].
      exists (change s). repeat split.
    + now apply Hhead.
  - cbn [SM.sessions].
    destruct (SM.sessions m) as [|s r]; [contradiction|].
    exists (change s). repeat split.
Qed.

(** X12 at a manager whose active id names no session. *)
Lemma update_then_get_witness :
  exists s,
    SM.getActiveSession
      (SM.updateMessages [turn user 2] 7
         {| SM.sessions :=
              [SM.createSessionObject (js "Chat 1")
                 {| SM.fresh_id := js "a"; SM.created := 0; SM.updated := 0 |}];
            SM.activeSessionId := Some (js "gone") |})
    = Some s
    /\ SM.messages s = [turn user 2] /\ SM.updatedAt s = 7
    /\ option_map SM.id
         (SM.getActiveSession
            {| SM.sessions :=
                 [SM.createSessionObject (js "Chat 1")
                    {| SM.fresh_id := js "a"; SM.created := 0;
                       SM.updated := 0 |}];
               SM.activeSessionId := Some (js "gone") |})
       = Some (SM.id s).
Proof.
  apply update_then_get. discriminate.
Defined.

(** X13.  deleteSession never leaves the manager without a session: when
    the last one goes, a new Chat 1 takes its place and becomes active.
    Otherwise the sessions left are the others, in their order, and none
    of them has the deleted id. *)
Theorem delete_session (i : jsstring) (f : SM.Fresh) (m : SM.Manager) :
  let kept := filter (fun s => negb (SM.has_id i s)) (SM.sessions m) in
  let m' := SM.deleteSession i f m in
  SM.sessions m' <> []
  /\ SM.getActiveSession m' <> None
  /\ match kept with
     | [] => SM.sessions m' = [SM.createSessionObject (js "Chat 1") f]
             /\ SM.activeSessionId m' = Some (SM.fresh_id f)
     | _ :: _ => SM.sessions m' = kept
                 /\ ~ In i (map SM.id (SM.sessions m'))
     end.
Proof.
  intros kept m'. subst m'. unfold SM.deleteSession. fold kept.
  destruct kept as [|k kept'] eqn:Ek.
  - cbn [SM.sessions SM.activeSessionId]. repeat split; try discriminate.
    unfold SM.getActiveSession, SM.find_session.
    cbn [SM.sessions SM.activeSessionId find].
    now destruct (SM.has_id _ _).
  - cbn [SM.sessions]. repeat split; try discriminate.
    + unfold SM.getActiveSession. cbn [SM.sessions hd_error].
      match goal with
      | |- match ?found with Some _ => _ | None => _ end <> None =>
          destruct found; discriminate
      end.
    + rewrite <- Ek. apply filter_other_ids.
Qed.



(* ================================================================== *)
(** ** The view over one request                                       *)
(* ================================================================== *)

Section Handlers.

Variable now : nat -> Z.

Lemma callbacks_run (n : nat) (c : callback) (r : list callback) (v : CH.View) :
  CH.callbacks now n (c :: r) v
  = (fst (CH.callbacks now (S n) r (fst (CH.on_callback (now n) c v))),
     snd (CH.on_callback (now n) c v)
       ++ snd (CH.callbacks now (S n) r (fst (CH.on_callback (now n) c v)))).
Proof.
  cbn [CH.callbacks]. destruct (CH.on_callback (now n) c v) as [v1 e1].
  cbn [fst snd]. now destruct (CH.callbacks now (S n) r v1).
Qed.







Lemma callbacks_not_generating (cs : list callback) (n : nat) (v : CH.View) :
  CH.isGenerating v = false ->
  CH.isGenerating (fst (CH.callbacks now n cs v)) = false.
Proof.
  revert n v. induction cs as [|c cs IH]; intros n v Hv; [exact Hv|].
  rewrite callbacks_run. cbn [fst]. apply IH.
  destruct c; cbn; auto.
Qed.





End Handlers.




(* ================================================================== *)
(** ** Slash commands                                                  *)
(* ================================================================== *)

Section Commands.

Lemma trimStart_white (pad s : jsstring) :
  Forall (fun c => is_white_space c = true) pad ->
  trimStart (pad ++ s) = trimStart s.
Proof.
  induction 1 as [|c pad Hc _ IH]; [reflexivity|].
  cbn [app trimStart]. now rewrite Hc.
Qed.

Lemma trimStart_black (c : N) (s : jsstring) :
  is_white_space c = false -> trimStart (c :: s) = c :: s.
Proof. intros H. cbn [trimStart]. now rewrite H. Qed.

Lemma trimStart_no_white (name : jsstring) :
  Forall (fun c => is_white_space c = false) name -> trimStart name = name.
Proof.
  destruct 1 as [|c name Hc _]; [reflexivity|]. now apply trimStart_black.
Qed.

Lemma trim_no_white (name : jsstring) :
  Forall (fun c => is_white_space c = false) name -> trim name = name.
Proof.
  intros H. unfold trim, trimEnd. rewrite (trimStart_no_white name H).
  rewrite trimStart_no_white; [apply rev_involutive|].
  now apply Forall_rev.
Qed.

Lemma line_terminator_white (c : N) :
  CH.is_line_terminator c = true -> is_white_space c = true.
Proof.
  unfold CH.is_line_terminator.
  destruct (N.eq_dec c 10) as [->|]; [reflexivity|].
  destruct (N.eq_dec c 13) as [->|]; [reflexivity|].
  destruct (N.eq_dec c 8232) as [->|]; [reflexivity|].
  destruct (N.eq_dec c 8233) as [->|]; [reflexivity|].
  destruct c as [|p]; [discriminate|].
  repeat (destruct p as [p|p|]; try discriminate; try congruence).
Qed.

Lemma dot_run_no_white (name : jsstring) :
  Forall (fun c => is_white_space c = false) name -> CH.dot_run name = name.
Proof.
  induction 1 as [|c name Hc _ IH]; [reflexivity|].
  cbn [CH.dot_run]. destruct (CH.is_line_terminator c) eqn:E.
  - apply line_terminator_white in E. congruence.
  - now rewrite IH.
Qed.

(** A text between whitespace is what [trim] leaves, when it begins and
    ends with something else. *)
Lemma trim_padded (pad1 pad2 core : jsstring) (c d : N)
  (body body' : jsstring) :
  Forall (fun c => is_white_space c = true) pad1 ->
  Forall (fun c => is_white_space c = true) pad2 ->
  core = c :: body -> is_white_space c = false ->
  rev core = d :: body' -> is_white_space d = false ->
  trim (pad1 ++ core ++ pad2) = core.
Proof.
  intros H1 H2 Ec Hc Ed Hd. unfold trim, trimEnd.
  rewrite (trimStart_white pad1 _ H1).
  rewrite Ec at 1. rewrite <- app_comm_cons, (trimStart_black c _ Hc).
  rewrite app_comm_cons, <- Ec, rev_app_distr.
  rewrite trimStart_white by now apply Forall_rev.
  rewrite Ed, (trimStart_black d _ Hd), <- Ed. apply rev_involutive.
Qed.

Lemma jsstring_eqb_neq (a b : jsstring) : a <> b -> jsstring_eqb a b = false.
Proof.
  intros H. destruct (jsstring_eqb a b) eqn:E; [|reflexivity].
  now apply jsstring_eqb_eq in E.
Qed.

End Commands.

(** X17.  A text that does not begin with a slash, leading whitespace
    apart, is never taken for a command: handleSlashCommand returns
    false and the text goes on to be sent. *)
Theorem plain_text_is_no_command (text : jsstring) :
  (forall rest, trim text <> 47%N :: rest) ->
  CH.handleSlashCommand text = CH.no_command.
Proof.
  intros H. unfold CH.handleSlashCommand, CH.model_match, CH.startsWith.
  destruct (trim text) as [|c rest] eqn:E; [reflexivity|].
  assert (Hc : c <> 47%N) by (intros ->; now apply (H rest)).
  assert (Hne : forall x lit, jsstring_eqb (c :: x) (47%N :: lit) = false).
  { intros x lit. apply jsstring_eqb_neq. congruence. }
  change (js "/clear") with (47%N :: js "clear").
  change (js "/new") with (47%N :: js "new").
  change (js "/export") with (47%N :: js "export").
  change (js "/help") with (47%N :: js "help").
  change (firstn (List.length (js "/model")) (c :: rest))
    with (c :: firstn 5 rest).
  change (js "/model") with (47%N :: js "model").
  now rewrite !Hne.
Qed.

(** X17 at a question. *)
Lemma plain_text_is_no_command_witness :
  CH.handleSlashCommand (js " what is /model?") = CH.no_command.
Proof.
  apply plain_text_is_no_command. intros rest. vm_compute. discriminate.
Defined.

(** X18.  The command /model followed by whitespace and a name, itself
    between any whitespace, sets the model override to that name; and
    from then on the arguments of the process are those without an
    override with --model and the name put in, side by side. *)
Theorem model_command_reaches_args (pad1 gap name pad2 prompt : jsstring)
  (settings : CodexChatSettings) :
  Forall (fun c => is_white_space c = true) pad1 ->
  Forall (fun c => is_white_space c = true) pad2 ->
  Forall (fun c => is_white_space c = true) gap -> gap <> [] ->
  Forall (fun c => is_white_space c = false) name -> name <> [] ->
  CH.handleSlashCommand (pad1 ++ js "/model" ++ gap ++ name ++ pad2)
  = CH.set_model name
  /\ exists before after,
       buildArgs (CH.with_modelOverride [] settings) prompt = before ++ after
       /\ buildArgs (CH.with_modelOverride name settings) prompt
          = before ++ [js "--model"; name] ++ after.
Proof.
  intros H1 H2 Hgap Hg Hname Hn. split.
  - set (core := js "/model" ++ gap ++ name).
    assert (Etrim : trim (pad1 ++ js "/model" ++ gap ++ name ++ pad2) = core).
    { replace (pad1 ++ js "/model" ++ gap ++ name ++ pad2)
        with (pad1 ++ core ++ pad2)
        by (unfold core; now rewrite <- !app_assoc).
      destruct (rev name) as [|d body'] eqn:Er.
      { apply (f_equal (@rev N)) in Er. rewrite rev_involutive in Er.
        contradiction. }
      apply (trim_padded pad1 pad2 core 47 d
               (skipn 1 (js "/model") ++ gap ++ name)
               (body' ++ rev gap ++ rev (js "/model")));
        try assumption; try reflexivity.
      - unfold core. rewrite !rev_app_distr, Er.
        now rewrite <- app_assoc.
      - apply Forall_rev in Hname. rewrite Er in Hname.
        now inversion Hname. }
    unfold CH.handleSlashCommand. rewrite Etrim.
    assert (Ecore : core = (47 :: 109 :: 111 :: 100 :: 101 :: 108
                            :: gap ++ name)%N) by reflexivity.
    rewrite !(jsstring_eqb_neq core);
      try (rewrite Ecore; intros F; vm_compute in F; congruence).
    cbn [orb]. unfold CH.model_match, CH.startsWith.
    replace (firstn (List.length (js "/model")) core) with (js "/model")
      by now rewrite Ecore.
    replace (skipn 6 core) with (gap ++ name) by now rewrite Ecore.
    destruct gap as [|g gap]; [contradiction|].
    rewrite <- app_comm_cons.
    inversion Hgap as [|? ? Hgc Hgr]; subst. rewrite Hgc.
    rewrite app_comm_cons, (trimStart_white (g :: gap) name Hgap).
    rewrite (trimStart_no_white name Hname).
    destruct name as [|n0 name]; [contradiction|].
    rewrite (dot_run_no_white _ Hname), jsstring_eqb_refl. cbn [truthy].
    now rewrite (trim_no_white _ Hname).
  - unfold buildArgs, push.
    cbn [CH.with_modelOverride modelOverride sandboxMode reasoningEffort truthy].
    destruct name as [|n0 name]; [contradiction|]. cbn [truthy].
    set (after := (if negb (effort_eqb (reasoningEffort settings) medium)
                   then [js "--reasoning-effort";
                         effort_string (reasoningEffort settings)]
                   else [])
                  ++ [js "--skip-git-repo-check"; prompt]).
    destruct (sandboxMode settings).
    + exists [js "exec"; js "--json"], after. subst after.
      destruct (negb _); split; reflexivity.
    + exists [js "exec"; js "--json"; js "--full-auto"], after. subst after.
      destruct (negb _); split; reflexivity.
    + exists [js "exec"; js "--json"; js "--sandbox"; js "danger-full-access"],
        after. subst after.
      destruct (negb _); split; reflexivity.
Qed.

(** X18 at a command with a newline after it. *)
Lemma model_command_reaches_args_witness :
  CH.handleSlashCommand ([] ++ js "/model" ++ js " " ++ js "gpt-5" ++ [LF])
  = CH.set_model (js "gpt-5").
Proof.
  apply (model_command_reaches_args [] (js " ") (js "gpt-5") [LF] []
           DEFAULT_SETTINGS);
    try discriminate; repeat constructor.
Defined.

(* ================================================================== *)
(** ** Files for a mention                                             *)
(* ================================================================== *)

Section Suggestions.

Variable toLowerCase : jsstring -> jsstring.

Let by_score (a b : TFile * Z) : Prop := snd b <= snd a.

Lemma insert_by_score_In (x y : TFile * Z) (l : list (TFile * Z)) :
  In y (VF.insert_by_score x l) <-> y = x \/ In y l.
Proof.
  induction l as [|z l IH]; cbn [VF.insert_by_score].
  - cbn. intuition.
  - destruct (snd x <? snd z); cbn [In]; [rewrite IH|]; intuition.
Qed.

Lemma sort_by_score_In (y : TFile * Z) (l : list (TFile * Z)) :
  In y (VF.sort_by_score l) <-> In y l.
Proof.
  induction l as [|x l IH]; [reflexivity|].
  cbn [VF.sort_by_score fold_right].
  fold (VF.sort_by_score l). rewrite insert_by_score_In, IH. cbn. intuition.
Qed.

Lemma insert_by_score_sorted (x : TFile * Z) (l : list (TFile * Z)) :
  StronglySorted by_score l ->
  StronglySorted by_score (VF.insert_by_score x l).
Proof.
  induction 1 as [|z l Hl IH Hz]; cbn [VF.insert_by_score].
  - constructor; constructor.
  - destruct (snd x <? snd z) eqn:E.
    + apply Z.ltb_lt in E. constructor; [exact IH|].
      apply Forall_forall. intros y Hy.
      apply insert_by_score_In in Hy. destruct Hy as [->|Hy].
      * unfold by_score. lia.
      * rewrite Forall_forall in Hz. now apply Hz.
    + apply Z.ltb_ge in E. constructor.
      * now constructor.
      * constructor; [exact E|].
        rewrite Forall_forall in *. intros y Hy.
        specialize (Hz y Hy). unfold by_score in *. lia.
Qed.

Lemma sort_by_score_sorted (l : list (TFile * Z)) :
  StronglySorted by_score (VF.sort_by_score l).
Proof.
  induction l as [|x l IH]; [constructor|].
  cbn [VF.sort_by_score fold_right]. now apply insert_by_score_sorted.
Qed.

Lemma firstn_subset {A : Type} (k : nat) (l : list A) (x : A) :
  In x (firstn k l) -> In x l.
Proof.
  revert k. induction l as [|y l IH]; intros k H.
  - now rewrite firstn_nil in H.
  - destruct k as [|k]; [destruct H|]. cbn [firstn] in H.
    destruct H as [H|H]; [now left|right; now apply (IH k)].
Qed.

Lemma firstn_sorted {A : Type} (R : A -> A -> Prop) (k : nat) (l : list A) :
  StronglySorted R l -> StronglySorted R (firstn k l).
Proof.
  revert k. induction l as [|x l IH]; intros k H.
  - rewrite firstn_nil. constructor.
  - destruct k as [|k]; [constructor|].
    inversion H as [|? ? Hl Hx]; subst. cbn [firstn]. constructor.
    + now apply IH.
    + rewrite Forall_forall in *. intros y Hy. apply Hx.
      revert Hy. apply firstn_subset.
Qed.

Lemma array_slice_to_firstn {A : Type} (a : list A) (n : Z) :
  exists k, VF.array_slice_to a n = firstn k a
            /\ (0 <= n -> k = Z.to_nat n).
Proof.
  unfold VF.array_slice_to. destruct (n <? 0) eqn:E.
  - apply Z.ltb_lt in E. eexists. split; [reflexivity|lia].
  - eexists. split; reflexivity.
Qed.

(** The entries that are scored and sorted: files of the vault with the
    extension md, each with its score, which is positive. *)
Lemma scored_entries (partial : jsstring) (files : list TFile)
  (e : TFile * Z) :
  In e (VF.scored toLowerCase partial files)
  <-> In (fst e) files
      /\ extension (fst e) = js "md"
      /\ snd e = VF.score toLowerCase (toLowerCase partial) (fst e)
      /\ 0 < snd e.
Proof.
  unfold VF.scored. rewrite sort_by_score_In, filter_In, in_map_iff.
  split.
  - intros [(f & <- & Hf) Hpos]. apply filter_In in Hf.
    destruct Hf as [Hf Hmd]. apply jsstring_eqb_eq in Hmd.
    cbn [fst snd] in *. repeat split; try assumption.
    now apply Z.gtb_lt in Hpos.
  - intros (Hf & Hmd & Hs & Hpos). split.
    + exists (fst e). split; [destruct e; cbn [fst snd] in *; congruence|].
      apply filter_In. split; [exact Hf|]. now apply jsstring_eqb_eq.
    + now apply Z.gtb_lt.
Qed.

Lemma score_range (lower : jsstring) (f : TFile) :
  0 <= VF.score toLowerCase lower f <= 100
  /\ (VF.score toLowerCase lower f = 100 ->
      toLowerCase (basename f) = lower).
Proof.
  unfold VF.score.
  destruct (jsstring_eqb (toLowerCase (basename f)) lower) eqn:E.
  - apply jsstring_eqb_eq in E. split; [lia|auto].
  - repeat match goal with
           | |- context [if ?b then _ else _] => destruct b
           end; split; try lia; intros; lia.
Qed.

Lemma find_all_false {A : Type} (p : A -> bool) (l : list A) :
  (forall x, In x l -> p x = false) -> find p l = None.
Proof.
  induction l as [|x l IH]; intros H; [reflexivity|].
  cbn [find]. rewrite (H x) by now left.
  apply IH. intros y Hy. apply H. now right.
Qed.

Lemma find_not_none {A : Type} (p : A -> bool) (l : list A) (x : A) :
  In x l -> p x = true -> find p l <> None.
Proof.
  intros Hin Hp Hnone. rewrite (find_none p l Hnone x Hin) in Hp.
  discriminate.
Qed.

End Suggestions.

(** X19.  What getFileSuggestions offers: at most limit files, each a
    file of the vault with the extension md whose name or path,
    lowercased, contains the lowercased text, better scores first. *)
Theorem suggestions_ordered (toLowerCase : jsstring -> jsstring)
  (partial : jsstring) (limit : Z) (files : list TFile) :
  let offered := VF.getFileSuggestions toLowerCase partial limit files in
  let lower := toLowerCase partial in
  (0 <= limit -> Z.of_nat (List.length offered) <= limit)
  /\ (forall f, In f offered ->
        In f files /\ extension f = js "md"
        /\ (VF.includes (toLowerCase (basename f)) lower = true
            \/ VF.includes (toLowerCase (path f)) lower = true))
  /\ StronglySorted
       (fun a b => VF.score toLowerCase lower b <= VF.score toLowerCase lower a)
       offered.
Proof.
  intros offered lower. subst offered. unfold VF.getFileSuggestions.
  destruct (array_slice_to_firstn (VF.scored toLowerCase partial files) limit)
    as (k & -> & Hk).
  assert (Hin : forall e, In e (firstn k (VF.scored toLowerCase partial files)) ->
                  In (fst e) files /\ extension (fst e) = js "md"
                  /\ snd e = VF.score toLowerCase lower (fst e)
                  /\ 0 < snd e).
  { intros e He. apply firstn_subset in He. now apply scored_entries in He. }
  split; [|split].
  - intros Hl. rewrite length_map, length_firstn, (Hk Hl). lia.
  - intros f Hf. apply in_map_iff in Hf. destruct Hf as (e & <- & He).
    destruct (Hin e He) as (H1 & H2 & H3 & H4).
    split; [exact H1|]. split; [exact H2|].
    rewrite H3 in H4. clear - H4. unfold VF.score in H4.
    destruct (jsstring_eqb (toLowerCase (basename (fst e))) lower) eqn:E1.
    { apply jsstring_eqb_eq in E1. left. rewrite E1.
      destruct lower; cbn [VF.includes]; unfold VF.startsWith;
        rewrite firstn_all, jsstring_eqb_refl; reflexivity. }
    destruct (VF.startsWith (toLowerCase (basename (fst e))) lower) eqn:E2.
    { left. destruct (toLowerCase (basename (fst e)));
        cbn [VF.includes]; now rewrite E2. }
    destruct (VF.startsWith (toLowerCase (path (fst e))) lower) eqn:E3.
    { right. destruct (toLowerCase (path (fst e)));
        cbn [VF.includes]; now rewrite E3. }
    destruct (VF.includes (toLowerCase (basename (fst e))) lower);
      [now left|].
    destruct (VF.includes (toLowerCase (path (fst e))) lower);
      [now right|lia].
  - assert (Hs : StronglySorted (fun a b : TFile * Z => snd b <= snd a)
                   (firstn k (VF.scored toLowerCase partial files))).
    { apply firstn_sorted. unfold VF.scored. apply sort_by_score_sorted. }
    revert Hin Hs.
    generalize (firstn k (VF.scored toLowerCase partial files)).
    induction l as [|e l IH]; intros Hin Hs; [constructor|].
    inversion Hs as [|? ? Hl He]; subst. cbn [map]. constructor.
    + apply IH; [|exact Hl]. intros x Hx. apply Hin. now right.
    + rewrite Forall_forall in *. intros f Hf.
      apply in_map_iff in Hf. destruct Hf as (x & <- & Hx).
      specialize (He x Hx).
      destruct (Hin e (or_introl eq_refl)) as (_ & _ & <- & _).
      destruct (Hin x (or_intror Hx)) as (_ & _ & <- & _). exact He.
Qed.

(** X20.  When the text is the name of a note of the vault, letter case
    apart, the first file offered bears that name. *)
Theorem exact_match_first (toLowerCase : jsstring -> jsstring)
  (partial : jsstring) (limit : Z) (files : list TFile) (f : TFile) :
  In f files -> extension f = js "md" ->
  toLowerCase (basename f) = toLowerCase partial ->
  1 <= limit ->
  exists g rest,
    VF.getFileSuggestions toLowerCase partial limit files = g :: rest
    /\ toLowerCase (basename g) = toLowerCase partial.
Proof.
  intros Hf Hmd Hname Hlimit. unfold VF.getFileSuggestions.
  destruct (array_slice_to_firstn (VF.scored toLowerCase partial files) limit)
    as (k & -> & Hk).
  assert (Ek : k = S (Nat.pred k)) by (rewrite Hk; lia).
  assert (Hscore : VF.score toLowerCase (toLowerCase partial) f = 100).
  { unfold VF.score. now rewrite Hname, jsstring_eqb_refl. }
  assert (Hin : In (f, 100) (VF.scored toLowerCase partial files)).
  { apply scored_entries. cbn [fst snd]. repeat split; auto; lia. }
  pose proof (sort_by_score_sorted
                (filter (fun s => snd s >? 0)
                   (map (fun f => (f, VF.score toLowerCase (toLowerCase partial) f))
                      (filter (fun f => jsstring_eqb (extension f) (js "md"))
                         files)))) as Hs.
  fold (VF.scored toLowerCase partial files) in Hs.
  destruct (VF.scored toLowerCase partial files) as [|e l] eqn:El;
    [destruct Hin|].
  rewrite Ek. cbn [firstn map]. exists (fst e), (map fst (firstn (Nat.pred k) l)).
  split; [reflexivity|].
  assert (He : In e (VF.scored toLowerCase partial files))
    by (rewrite El; now left).
  apply scored_entries in He. destruct He as (_ & _ & He & _).
  apply (score_range toLowerCase).
  destruct (score_range toLowerCase (toLowerCase partial) (fst e)) as [Hr _].
  inversion Hs as [|? ? _ Hall]; subst.
  destruct Hin as [->|Hin]; [cbn [fst snd] in *; lia|].
  rewrite Forall_forall in Hall. specialize (Hall _ Hin).
  cbn [snd] in Hall. lia.
Qed.

(** X20 at a vault of two notes. *)
Lemma exact_match_first_witness :
  exists g rest,
    VF.getFileSuggestions (fun x => x) (js "plan") 8
      [{| basename := js "planning"; path := js "planning.md";
          extension := js "md" |};
       {| basename := js "plan"; path := js "work/plan.md";
          extension := js "md" |}]
    = g :: rest
    /\ basename g = js "plan".
Proof.
  apply (exact_match_first (fun x => x) (js "plan") 8 _
           {| basename := js "plan"; path := js "work/plan.md";
              extension := js "md" |});
    [right; left; reflexivity | reflexivity | reflexivity | lia].
Defined.

(** X21.  findFile, given the name of a file of the vault, always finds
    a file: one whose path is that name, with or without .md, or else one
    of that name, letter case apart; never one that the name is a mere
    beginning of.  It is the file itself when no path is that name and
    no other file bears the name. *)
Theorem own_name_resolves (toLowerCase : jsstring -> jsstring)
  (allFiles : list TFile) (f : TFile) :
  In f allFiles ->
  let lower := toLowerCase (basename f) in
  exists g,
    VF.findFile toLowerCase (basename f) allFiles = Some g
    /\ In g allFiles
    /\ (VF.path_matches toLowerCase lower g = true
        \/ toLowerCase (basename g) = lower)
    /\ ((forall h, In h allFiles -> VF.path_matches toLowerCase lower h = false) ->
        (forall h, In h allFiles -> toLowerCase (basename h) = lower -> h = f) ->
        g = f).
Proof.
  intros Hf lower. unfold VF.findFile. fold lower.
  destruct (find (VF.path_matches toLowerCase lower) allFiles) as [g|] eqn:E1.
  - apply find_some in E1. destruct E1 as [Hg Hp].
    exists g. repeat split; auto.
    intros Hnone _. rewrite (Hnone g Hg) in Hp. discriminate.
  - destruct (find (VF.name_matches toLowerCase lower) allFiles) as [g|] eqn:E2.
    + apply find_some in E2. destruct E2 as [Hg Hn].
      apply jsstring_eqb_eq in Hn.
      exists g. repeat split; auto.
    + exfalso. apply (find_not_none _ _ f Hf) in E2; [exact E2|].
      apply jsstring_eqb_refl.
Qed.

(** X21 at a vault where a path is the name of another note. *)
Lemma own_name_resolves_witness :
  exists g,
    VF.findFile (fun x => x) (js "todo")
      [{| basename := js "todo"; path := js "work/todo.md";
          extension := js "md" |};
       {| basename := js "list"; path := js "todo.md";
          extension := js "md" |}]
    = Some g
    /\ In g [{| basename := js "todo"; path := js "work/todo.md";
                extension := js "md" |};
             {| basename := js "list"; path := js "todo.md";
                extension := js "md" |}]
    /\ (VF.path_matches (fun x => x) (js "todo") g = true
        \/ basename g = js "todo")
    /\ ((forall h,
           In h [{| basename := js "todo"; path := js "work/todo.md";
                    extension := js "md" |};
                 {| basename := js "list"; path := js "todo.md";
                    extension := js "md" |}] ->
           VF.path_matches (fun x => x) (js "todo") h = false) ->
        (forall h,
           In h [{| basename := js "todo"; path := js "work/todo.md";
                    extension := js "md" |};
                 {| basename := js "list"; path := js "todo.md";
                    extension := js "md" |}] ->
           basename h = js "todo" ->
           h = {| basename := js "todo"; path := js "work/todo.md";
                  extension := js "md" |}) ->
        g = {| basename := js "todo"; path := js "work/todo.md";
               extension := js "md" |}).
Proof.
  apply (own_name_resolves (fun x => x)
           [{| basename := js "todo"; path := js "work/todo.md";
               extension := js "md" |};
            {| basename := js "list"; path := js "todo.md";
               extension := js "md" |}]
           {| basename := js "todo"; path := js "work/todo.md";
              extension := js "md" |}).
  now left.
Defined.

(* ================================================================== *)
(** ** The binary and the search path                                  *)
(* ================================================================== *)

Section Paths.

Lemma split_without (sep : N) (s : jsstring) :
  existsb (N.eqb sep) s = false -> split sep s = [s].
Proof.
  induction s as [|c s IH]; [reflexivity|].
  cbn [existsb split]. intros H. apply orb_false_elim in H.
  destruct H as [Hc Hs]. rewrite N.eqb_sym, Hc, (IH Hs). reflexivity.
Qed.

Lemma split_at_sep (sep : N) (p x : jsstring) :
  existsb (N.eqb sep) p = false ->
  split sep (p ++ sep :: x) = p :: split sep x.
Proof.
  induction p as [|c p IH]; intros H.
  - cbn [app split]. now rewrite N.eqb_refl.
  - cbn [existsb] in H. apply orb_false_elim in H. destruct H as [Hc Hp].
    cbn [app split]. now rewrite N.eqb_sym, Hc, (IH Hp).
Qed.

(** Parts that hold no separator come back from the text they were
    joined into. *)
Lemma split_join (sep : N) (parts : list jsstring) :
  parts <> [] ->
  Forall (fun p => existsb (N.eqb sep) p = false) parts ->
  split sep (join [sep] parts) = parts.
Proof.
  intros Hne H. induction H as [|p parts Hp Hparts IH]; [contradiction|].
  destruct parts as [|q parts].
  - cbn [join]. now apply split_without.
  - change (join [sep] (p :: q :: parts))
      with (p ++ sep :: join [sep] (q :: parts)).
    rewrite (split_at_sep sep p _ Hp), IH; [reflexivity|discriminate].
Qed.

(** A code unit the text does not hold is in none of its parts. *)
Lemma split_parts_without (sep d : N) (s : jsstring) :
  existsb (N.eqb d) s = false ->
  Forall (fun p => existsb (N.eqb d) p = false) (split sep s).
Proof.
  induction s as [|c s IH]; intros H.
  - repeat constructor.
  - cbn [existsb] in H. apply orb_false_elim in H. destruct H as [Hc Hs].
    specialize (IH Hs). cbn [split]. destruct (N.eqb c sep).
    + constructor; [reflexivity|exact IH].
    + destruct (split sep s) as [|l ls].
      * repeat constructor. cbn [existsb]. now rewrite Hc.
      * inversion IH as [|? ? Hl Hls]; subst. constructor; [|exact Hls].
        cbn [existsb]. now rewrite Hc, Hl.
Qed.

End Paths.

(** X22.  resolveCodexBinary returns the configured path itself or a path
    that exists; only the bare name codex is ever searched for, any other
    configured value comes back as it is; and resolving what it returned
    returns the same. *)
Theorem resolved_binary (env_SHELL env_PATH : option jsstring)
  (existsSync : jsstring -> bool) (execSync : jsstring -> option jsstring)
  (homedir : jsstring) (path_join : list jsstring -> jsstring)
  (configured : jsstring) :
  let resolve :=
    SE.resolveCodexBinary env_SHELL env_PATH existsSync execSync homedir
      path_join in
  (resolve configured = configured \/ existsSync (resolve configured) = true)
  /\ (configured <> js "codex" -> resolve configured = configured)
  /\ resolve (resolve configured) = resolve configured.
Proof.
  intros resolve.
  assert (Hother : forall x, x <> js "codex" -> resolve x = x).
  { intros x Hx. unfold resolve, SE.resolveCodexBinary.
    destruct (_ && existsSync x); [reflexivity|].
    now rewrite (jsstring_eqb_neq x (js "codex") Hx). }
  assert (Hfound : resolve configured = configured
                   \/ existsSync (resolve configured) = true).
  { unfold resolve, SE.resolveCodexBinary.
    destruct (_ && existsSync configured); [now left|].
    destruct (jsstring_eqb configured (js "codex")); [|now left].
    destruct (execSync _) as [output|].
    - destruct (truthy (trim output) && existsSync (trim output)) eqn:E.
      + right. apply andb_prop in E. tauto.
      + destruct (find existsSync _) as [c|] eqn:Ec.
        * right. now apply find_some in Ec.
        * destruct (find existsSync (map _ _)) as [c|] eqn:Ed; [|now left].
          right. now apply find_some in Ed.
    - destruct (find existsSync _) as [c|] eqn:Ec.
      + right. now apply find_some in Ec.
      + destruct (find existsSync (map _ _)) as [c|] eqn:Ed; [|now left].
        right. now apply find_some in Ed. }
  split; [exact Hfound|]. split; [apply Hother|].
  destruct (list_eq_dec N.eq_dec (resolve configured) (js "codex")) as [E|E];
    [|now apply Hother].
  destruct (list_eq_dec N.eq_dec configured (js "codex")) as [Ec|Ec].
  - rewrite E at 1. now rewrite <- Ec.
  - now rewrite !(Hother configured Ec).
Qed.

(** X23.  With fish as the shell, the directories that are searched are
    the words of what its login shell prints for PATH, as long as that
    holds no colon: separated by spaces, they are joined with colons and
    split again at the colons. *)
Theorem fish_path_words (env_SHELL env_PATH : option jsstring)
  (existsSync : jsstring -> bool) (execSync : jsstring -> option jsstring)
  (output : jsstring) :
  let shell := SE.detectShell env_SHELL existsSync in
  SE.shellName shell = js "fish" ->
  execSync (SE.echo_path shell) = Some output ->
  trim output <> [] ->
  SE.includes_unit (trim output) 58 = false ->
  split SE.delimiter (SE.getShellPath env_SHELL env_PATH existsSync execSync)
  = split 32 (trim output).
Proof.
  intros shell Hfish Hexec Hsome Hcolon. unfold SE.getShellPath.
  fold shell. rewrite Hexec, Hfish, jsstring_eqb_refl, Hcolon.
  destruct (trim output) as [|c r] eqn:Et; [contradiction|].
  cbn [truthy andb negb]. rewrite andb_true_r.
  unfold SE.includes_unit in *.
  destruct (existsb (N.eqb 32) (c :: r)) eqn:Espace.
  - apply split_join; [apply split_not_nil|].
    now apply split_parts_without.
  - unfold SE.delimiter.
    now rewrite (split_without 58 _ Hcolon), (split_without 32 _ Espace).
Qed.

(** X23 at two directories. *)
Lemma fish_path_words_witness :
  split SE.delimiter
    (SE.getShellPath (Some (js "/usr/bin/fish")) None (fun _ => false)
       (fun _ => Some (js "/usr/local/bin /usr/bin" ++ [LF])))
  = [js "/usr/local/bin"; js "/usr/bin"].
Proof.
  apply (fish_path_words (Some (js "/usr/bin/fish")) None (fun _ => false)
           (fun _ => Some (js "/usr/local/bin /usr/bin" ++ [LF]))
           (js "/usr/local/bin /usr/bin" ++ [LF]));
    try reflexivity.
  vm_compute. discriminate.
Defined.

(* ================================================================== *)
(** ** The text of a session                                           *)
(* ================================================================== *)

Section FinalText.






End FinalText.




(* ================================================================== *)
(** ** Sessions kept and restored                                      *)
(* ================================================================== *)

Section Kept.

Lemma find_update_first_other (a b : jsstring)
  (change : SM.ChatSession -> SM.ChatSession) (ss : list SM.ChatSession) :
  (forall s, SM.id (change s) = SM.id s) -> a <> b ->
  find (SM.has_id b) (SM.update_first (SM.has_id a) change ss)
  = find (SM.has_id b) ss.
Proof.
  intros Hid Hab. induction ss as [|s ss IH]; [reflexivity|].
  cbn [SM.update_first]. destruct (SM.has_id a s) eqn:Ea.
  - cbn [find]. unfold SM.has_id in *. rewrite Hid.
    apply jsstring_eqb_eq in Ea.
    rewrite (jsstring_eqb_neq (SM.id s) b) by congruence. reflexivity.
  - cbn [find]. now rewrite IH.
Qed.

(** The manager after [updateMessages] when the active id names a
    session. *)
Lemma updateMessages_active (ms : list ChatMessage) (now : Z) (m : SM.Manager)
  (a : jsstring) (s : SM.ChatSession) :
  SM.activeSessionId m = Some a -> SM.find_session a m = Some s ->
  SM.updateMessages ms now m
  = {| SM.sessions :=
         SM.update_first (SM.has_id a)
           (fun s => {| SM.id := SM.id s; SM.name := SM.name s;
                        SM.messages := ms;
                        SM.createdAt := SM.createdAt s;
                        SM.updatedAt := now |})
           (SM.sessions m);
       SM.activeSessionId := Some a |}.
Proof.
  intros Ha Hs. unfold SM.updateMessages. now rewrite Ha, Hs.
Qed.

Lemma find_map_same_id (a : jsstring)
  (change : SM.ChatSession -> SM.ChatSession) (ss : list SM.ChatSession) :
  (forall s, SM.id (change s) = SM.id s) ->
  find (SM.has_id a) (map change ss) = option_map change (find (SM.has_id a) ss).
Proof.
  intros Hid. induction ss as [|s ss IH]; [reflexivity|].
  cbn [map find]. unfold SM.has_id in *. rewrite Hid.
  now destruct (jsstring_eqb (SM.id s) a).
Qed.

Lemma array_slice_from_length {A : Type} (a : list A) (k : Z) :
  0 < k ->
  Z.of_nat (List.length (array_slice_from a (- k))) <= k
  /\ (Z.of_nat (List.length a) <= k -> array_slice_from a (- k) = a).
Proof.
  intros Hk. unfold array_slice_from.
  replace (- k <? 0) with true by (symmetry; apply Z.ltb_lt; lia).
  rewrite length_skipn. split; [lia|].
  intros Hle. replace (Z.to_nat _) with 0%nat by lia. reflexivity.
Qed.

End Kept.

(** X26.  Saving and loading again brings the sessions back: the same
    sessions in the same order, each with the last 50 of its messages,
    all of them when it has no more than 50; and the active session is
    the one that was active, cut in the same way. *)
Theorem saved_sessions_come_back (m m0 : SM.Manager) (f : SM.Fresh) :
  SM.sessions m <> [] ->
  let keep (s : SM.ChatSession) :=
    {| SM.id := SM.id s; SM.name := SM.name s;
       SM.messages := array_slice_from (SM.messages s) (- 50);
       SM.createdAt := SM.createdAt s; SM.updatedAt := SM.updatedAt s |} in
  let m' := SM.load (SM.save m) f m0 in
  SM.sessions m' = map keep (SM.sessions m)
  /\ SM.getActiveSession m' = option_map keep (SM.getActiveSession m)
  /\ (forall s, In s (SM.sessions m') ->
        Z.of_nat (List.length (SM.messages s)) <= 50)
  /\ ((forall s, In s (SM.sessions m) ->
         Z.of_nat (List.length (SM.messages s)) <= 50) ->
      SM.sessions m' = SM.sessions m).
Proof.
  intros Hne keep m'.
  assert (Hs : SM.sessions m' = map keep (SM.sessions m)).
  { subst m'. unfold SM.load, SM.save, SM.saved_sessions.
    cbn [SM.chatSessions SM.chatMessages SM.data_activeSessionId].
    fold keep. destruct (SM.sessions m) as [|s ss]; [contradiction|].
    reflexivity. }
  assert (Ha : SM.activeSessionId m'
               = match SM.activeSessionId m with
                 | Some a => Some a
                 | None => option_map SM.id (hd_error (SM.sessions m))
                 end).
  { subst m'. unfold SM.load, SM.save, SM.saved_sessions.
    cbn [SM.chatSessions SM.chatMessages SM.data_activeSessionId].
    destruct (SM.sessions m) as [|s ss]; [contradiction|].
    cbn [map SM.sessions SM.activeSessionId hd_error option_map SM.id].
    reflexivity. }
  split; [exact Hs|]. split; [|split].
  - unfold SM.getActiveSession, SM.find_session. rewrite Hs, Ha.
    assert (Hid : forall s, SM.id (keep s) = SM.id s) by reflexivity.
    destruct (SM.activeSessionId m) as [a|].
    + rewrite (find_map_same_id a keep _ Hid).
      destruct (find (SM.has_id a) (SM.sessions m)); [reflexivity|].
      now destruct (SM.sessions m).
    + destruct (SM.sessions m) as [|s ss]; [contradiction|].
      cbn [hd_error option_map map find].
      unfold SM.has_id. cbn [keep SM.id]. now rewrite jsstring_eqb_refl.
  - intros s Hin. rewrite Hs in Hin. apply in_map_iff in Hin.
    destruct Hin as (x & <- & _). cbn [keep SM.messages].
    apply (array_slice_from_length (SM.messages x) 50). lia.
  - intros Hall. rewrite Hs. clear - Hall.
    induction (SM.sessions m) as [|s ss IH]; [reflexivity|].
    cbn [map]. rewrite IH by (intros x Hx; apply Hall; now right).
    f_equal. unfold keep.
    destruct (array_slice_from_length (SM.messages s) 50) as [_ H]; [lia|].
    cbn [Z.opp] in H. rewrite H by (apply Hall; now left). now destruct s.
Qed.

(** X26 at a manager of one session of one message. *)
Lemma saved_sessions_come_back_witness :
  let m :=
    {| SM.sessions :=
         [{| SM.id := js "a"; SM.name := js "Chat 1";
             SM.messages := [turn user 2];
             SM.createdAt := 0; SM.updatedAt := 1 |}];
       SM.activeSessionId := Some (js "a") |} in
  let f := {| SM.fresh_id := js "b"; SM.created := 2; SM.updated := 2 |} in
  SM.sessions (SM.load (SM.save m) f {| SM.sessions := [];
                                        SM.activeSessionId := None |})
  = SM.sessions m.
Proof.
  intros m f.
  refine (proj2 (proj2 (proj2 (saved_sessions_come_back m _ f _))) _).
  - discriminate.
  - intros s [<-|[]]. cbn. lia.
Defined.

(** X27.  Switching to another session and back restores the
    conversation: the messages of the view are stored in the session
    that is left, the view shows those of the session it enters, and on
    return it shows again what it showed before. *)
Theorem switch_and_back (v : CH.View) (m : SM.Manager) (a b : jsstring)
  (t1 t2 : Z) :
  SM.activeSessionId m = Some a ->
  SM.find_session a m <> None ->
  SM.find_session b m <> None ->
  let there := CH.switchSession b t1 v m in
  let back := CH.switchSession a t2 (fst there) (snd there) in
  CH.messages (fst back) = CH.messages v
  /\ SM.activeSessionId (snd there) = Some b
  /\ SM.activeSessionId (snd back) = Some a
  /\ (a <> b ->
      option_map SM.messages (SM.find_session b m)
      = Some (CH.messages (fst there)))
  /\ option_map SM.messages (SM.find_session a (snd there))
     = Some (CH.messages v).
Proof.
  intros Ha Hfa Hfb there back.
  destruct (SM.find_session a m) as [sa|] eqn:Efa; [clear Hfa|contradiction].
  destruct (SM.find_session b m) as [sb|] eqn:Efb; [clear Hfb|contradiction].
  set (change1 := fun s => {| SM.id := SM.id s; SM.name := SM.name s;
                              SM.messages := CH.messages v;
                              SM.createdAt := SM.createdAt s;
                              SM.updatedAt := t1 |}).
  assert (Hid1 : forall s, SM.id (change1 s) = SM.id s) by reflexivity.
  pose proof (updateMessages_active (CH.messages v) t1 m a sa Ha Efa) as Hm1.
  fold change1 in Hm1.
  set (m1 := SM.updateMessages (CH.messages v) t1 m) in *.
  (* the sessions named a and b once the messages are stored *)
  assert (Ea1 : SM.find_session a m1 = Some (change1 sa)).
  { unfold SM.find_session in *. rewrite Hm1. cbn [SM.sessions].
    now rewrite (find_update_first a change1 _ Hid1), Efa. }
  assert (Eb1 : exists sb1, SM.find_session b m1 = Some sb1
                            /\ (a <> b -> sb1 = sb)).
  { destruct (list_eq_dec N.eq_dec a b) as [<-|Hab].
    - exists (change1 sa). split; [exact Ea1|]. now intros H.
    - exists sb. split; [|reflexivity].
      unfold SM.find_session in *. rewrite Hm1. cbn [SM.sessions].
      now rewrite (find_update_first_other a b change1 _ Hid1 Hab). }
  destruct Eb1 as (sb1 & Eb1 & Hsb1).
  assert (Ethere : there
                   = ({| CH.messages := SM.messages sb1;
                         CH.currentStreamEl := false;
                         CH.currentStreamText := [];
                         CH.isGenerating := false |},
                      {| SM.sessions := SM.sessions m1;
                         SM.activeSessionId := Some b |})).
  { subst there. unfold CH.switchSession, SM.switchTo. fold m1.
    now rewrite Eb1. }
  set (m2 := {| SM.sessions := SM.sessions m1;
                SM.activeSessionId := Some b |}) in *.
  assert (Ea2 : SM.find_session a m2 = Some (change1 sa)) by exact Ea1.
  assert (Eb2 : SM.find_session b m2 = Some sb1) by exact Eb1.
  set (change2 := fun s => {| SM.id := SM.id s; SM.name := SM.name s;
                              SM.messages := SM.messages sb1;
                              SM.createdAt := SM.createdAt s;
                              SM.updatedAt := t2 |}).
  assert (Hid2 : forall s, SM.id (change2 s) = SM.id s) by reflexivity.
  pose proof (updateMessages_active (SM.messages sb1) t2 m2 b sb1 eq_refl Eb2)
    as Hm3.
  fold change2 in Hm3.
  set (m3 := SM.updateMessages (SM.messages sb1) t2 m2) in *.
  assert (Ea3 : exists sa3, SM.find_session a m3 = Some sa3
                            /\ SM.messages sa3 = CH.messages v).
  { destruct (list_eq_dec N.eq_dec b a) as [Hba|Hba].
    - subst b. exists (change2 sb1). split.
      + unfold SM.find_session in *. rewrite Hm3. cbn [SM.sessions].
        now rewrite (find_update_first a change2 _ Hid2), Eb2.
      + cbn [change2 SM.messages]. rewrite Ea2 in Eb2.
        injection Eb2 as <-. reflexivity.
    - exists (change1 sa). split; [|reflexivity].
      unfold SM.find_session in *. rewrite Hm3. cbn [SM.sessions].
      now rewrite (find_update_first_other b a change2 _ Hid2 Hba). }
  destruct Ea3 as (sa3 & Ea3 & Hsa3).
  assert (Eback : back
                  = ({| CH.messages := SM.messages sa3;
                        CH.currentStreamEl := false;
                        CH.currentStreamText := [];
                        CH.isGenerating := false |},
                     {| SM.sessions := SM.sessions m3;
                        SM.activeSessionId := Some a |})).
  { subst back. rewrite Ethere. cbn [fst snd].
    unfold CH.switchSession, SM.switchTo. cbn [CH.messages]. fold m3.
    now rewrite Ea3. }
  rewrite Eback, Ethere. cbn [fst snd CH.messages SM.activeSessionId].
  repeat split; auto.
  - intros Hab. cbn [option_map]. now rewrite (Hsb1 Hab).
  - fold m2. now rewrite Ea2.
Qed.

(** X27 at two sessions. *)
Lemma switch_and_back_witness :
  let m :=
    {| SM.sessions :=
         [{| SM.id := js "a"; SM.name := js "Chat 1"; SM.messages := [];
             SM.createdAt := 0; SM.updatedAt := 0 |};
          {| SM.id := js "b"; SM.name := js "Chat 2";
             SM.messages := [turn user 3];
             SM.createdAt := 1; SM.updatedAt := 1 |}];
       SM.activeSessionId := Some (js "a") |} in
  let v :=
    {| CH.messages := [turn user 2; turn assistant 5];
       CH.currentStreamEl := false; CH.currentStreamText := [];
       CH.isGenerating := false |} in
  CH.messages
    (fst (CH.switchSession (js "a") 8
            (fst (CH.switchSession (js "b") 7 v m))
            (snd (CH.switchSession (js "b") 7 v m))))
  = CH.messages v.
Proof.
  intros m v.
  refine (proj1 (switch_and_back v m (js "a") (js "b") 7 8 _ _ _));
    [reflexivity | vm_compute; discriminate | vm_compute; discriminate].
Defined.

(* ================================================================== *)
(** ** Retry, and the status the CLI reports                           *)
(* ================================================================== *)

Section Again.





Lemma startsWith_spec (s p : jsstring) :
  VF.startsWith s p = true <-> exists b, s = p ++ b.
Proof.
  unfold VF.startsWith. rewrite jsstring_eqb_eq. split.
  - intros H. exists (skipn (List.length p) s).
    rewrite <- H at 1. symmetry. apply firstn_skipn.
  - intros (b & ->). rewrite firstn_app, firstn_all, Nat.sub_diag.
    cbn [firstn]. apply app_nil_r.
Qed.

Lemma includes_spec (s p : jsstring) :
  VF.includes s p = true <-> exists a b, s = a ++ p ++ b.
Proof.
  induction s as [|c s IH].
  - cbn [VF.includes]. rewrite orb_false_r, startsWith_spec. split.
    + intros (b & H). now exists [], b.
    + intros (a & b & H). symmetry in H.
      apply app_eq_nil in H. destruct H as [-> H]. now exists b.
  - cbn [VF.includes]. rewrite orb_true_iff, startsWith_spec, IH. split.
    + intros [(b & H)|(a & b & H)].
      * now exists [], b.
      * exists (c :: a), b. now rewrite H.
    + intros (a & b & H). destruct a as [|x a].
      * left. now exists b.
      * right. injection H as _ H. now exists a, b.
Qed.

End Again.



(** X29.  The check by codex login status takes a refusal for a yes:
    whenever the output of the command, lowercased, holds the words
    not logged in, or the word unauthenticated, the check answers true
    whatever the exit code. *)
Theorem refusal_reads_as_signed_in (toLowerCase : jsstring -> jsstring)
  (outputs : list output) (code : option Z) :
  let combined := toLowerCase (stdout_text outputs ++ stderr_text outputs) in
  VF.includes combined (js "not logged in") = true
  \/ VF.includes combined (js "unauthenticated") = true ->
  CodexAuth.checkAuthViaCli toLowerCase outputs code = true.
Proof.
  intros combined H. unfold CodexAuth.checkAuthViaCli. fold combined.
  assert (G : VF.includes combined (js "logged in")
              || VF.includes combined (js "authenticated") = true).
  { apply orb_true_iff. destruct H as [H|H];
      apply includes_spec in H; destruct H as (a & b & H); [left|right];
      apply includes_spec.
    - exists (a ++ js "not "), b. rewrite H, <- !app_assoc. reflexivity.
    - exists (a ++ js "un"), b. rewrite H, <- !app_assoc. reflexivity. }
  rewrite G. destruct code as [[| |]|]; reflexivity.
Qed.

(** X29 at the answer of a CLI that is not signed in. *)
Lemma refusal_reads_as_signed_in_witness :
  CodexAuth.checkAuthViaCli (fun x => x)
    [stderr (bytes "not logged in")] (Some 1) = true.
Proof.
  apply refusal_reads_as_signed_in. left. vm_compute. reflexivity.
Defined.
